(** * The sync-granule task

    A shallow embedding of the task's entry module ([download],
    [syncGranule] and the error mapping of its handlers) and of what the
    specification says about the parts that live in the ingest package:
    the staging key, the duplicate policy and the lock table.

    JavaScript objects become records, a promise becomes the outcome of a
    state-passing computation, and the ingest adapter is a record of
    operations over an abstract world; every call on the adapter is
    logged in a trace, so that the statements can count and order them. *)

From Stdlib Require Import Ascii String Arith ZArith DecimalString Lia.
From stdpp Require Import base option list gmap strings.

Local Open Scope string_scope.
Local Open Scope list_scope.

(** ** Strings as JavaScript uses them *)

Module Js.

(** [startsWith hay needle]: [hay.startsWith(needle)]. *)
Fixpoint startsWith (hay needle : string) : bool :=
  match needle, hay with
  | EmptyString, _ => true
  | String _ _, EmptyString => false
  | String c n', String d h' => if Ascii.eqb c d then startsWith h' n' else false
  end.

(** [includes hay needle]: [hay.includes(needle)]. *)
Fixpoint includes (hay needle : string) : bool :=
  startsWith hay needle ||
  match hay with
  | EmptyString => false
  | String _ h' => includes h' needle
  end.

(** A thrown value: an Error object with its name, its message and the
    optional [details] object that http and ftp clients attach. *)
Record Details := { status : option string }.

Record Error := {
  name : string;
  message : string;
  details : option Details
}.

(** [Error.prototype.toString]. *)
Definition toString (e : Error) : string :=
  if String.eqb (name e) "" then message e
  else if String.eqb (message e) "" then name e
  else name e +:+ ": " +:+ message e.

(** [e.details && e.details.status === 'timeout'] *)
Definition status_is_timeout (e : Error) : bool :=
  match details e with
  | Some d => match status d with
              | Some s => String.eqb s "timeout"
              | None => false
              end
  | None => false
  end.

Definition mkError (n msg : string) : Error :=
  {| name := n; message := msg; details := None |}.

(** The error classes of the common package that the task instantiates,
    and the TypeError raised by a property read on undefined. *)
Definition ResourcesLockedError := mkError "ResourcesLockedError".
Definition ProviderNotFound := mkError "ProviderNotFound".
Definition RemoteResourceError := mkError "RemoteResourceError".
Definition ConnectionTimeout := mkError "ConnectionTimeout".
Definition TypeError := mkError "TypeError".

End Js.

(** ** Node's posix [path.join] *)

Module Path.

Definition slash : ascii := "/"%char.

(** [s.split(sep)] for a one-character separator. *)
Fixpoint split_on (sep : ascii) (s : string) : list string :=
  match s with
  | EmptyString => [EmptyString]
  | String c rest =>
      let r := split_on sep rest in
      if Ascii.eqb c sep then EmptyString :: r
      else match r with
           | [] => [String c EmptyString]
           | h :: t => String c h :: t
           end
  end.

(** [segs.join('/')] *)
Fixpoint slash_join (segs : list string) : string :=
  match segs with
  | [] => EmptyString
  | [s] => s
  | s :: rest => s +:+ String slash (slash_join rest)
  end.

Definition first_char (s : string) : option ascii :=
  match s with
  | EmptyString => None
  | String c _ => Some c
  end.

Fixpoint last_char (s : string) : option ascii :=
  match s with
  | EmptyString => None
  | String c EmptyString => Some c
  | String _ rest => last_char rest
  end.

Definition is_slash (o : option ascii) : bool :=
  match o with
  | Some c => Ascii.eqb c slash
  | None => false
  end.

(** [normalizeString]: resolves "." and ".." segments and drops empty
    ones. [res] holds the segments kept so far, last one first. *)
Fixpoint normalizeSegments (allowAboveRoot : bool) (segs res : list string)
  : list string :=
  match segs with
  | [] => rev res
  | seg :: rest =>
      if String.eqb seg "" || String.eqb seg "." then
        normalizeSegments allowAboveRoot rest res
      else if String.eqb seg ".." then
        match res with
        | lastseg :: res' =>
            if String.eqb lastseg ".." then
              normalizeSegments allowAboveRoot rest
                (if allowAboveRoot then ".." :: res else res)
            else normalizeSegments allowAboveRoot rest res'
        | [] =>
            normalizeSegments allowAboveRoot rest
              (if allowAboveRoot then [".."] else [])
        end
      else normalizeSegments allowAboveRoot rest (seg :: res)
  end.

(** [path.posix.normalize] *)
Definition normalize (path : string) : string :=
  if String.eqb path "" then "."
  else
    let isAbsolute := is_slash (first_char path) in
    let trailingSeparator := is_slash (last_char path) in
    let p := slash_join
               (normalizeSegments (negb isAbsolute) (split_on slash path) []) in
    if String.eqb p "" then
      if isAbsolute then "/" else if trailingSeparator then "./" else "."
    else
      let p' := if trailingSeparator then p +:+ "/" else p in
      if isAbsolute then "/" +:+ p' else p'.

(** [path.posix.join(...args)]: the non-empty arguments joined by "/",
    then normalized. *)
Definition join (args : list string) : string :=
  match filter (fun a => a ≠ "") args with
  | [] => "."
  | parts => normalize (slash_join parts)
  end.



End Path.

(** ** The task's data *)

(** A file of a granule, as it travels in the payload. The last three
    fields are filled in by ingest. *)
Record File := {
  file_name : string;
  file_path : string;
  fileSize : option nat;
  checksumValue : option string;
  file_bucket : option string;
  filename : option string;
  fileStagingDir : option string;
  duplicate_found : option bool
}.

Record Granule := {
  granuleId : string;
  dataType : option string;
  files : list File
}.

Record Bucket := { bucket_name : string; bucket_type : string }.

(** [event.meta.buckets]: the task reads [buckets.private.name]. *)
Record Buckets := {
  private : Bucket;
  other_buckets : list (string * Bucket)
}.

Record Collection := {
  collection_name : string;
  collection_version : string;
  duplicateHandling : option string;
  process : option string
}.

Record Provider := {
  provider_id : option string;
  protocol : string;
  host : string
}.

Record Meta := {
  stack : string;
  buckets : Buckets;
  provider : option Provider;
  collection : option Collection
}.

Record Payload := { granules : list Granule }.

Record Event := { payload : Payload; meta : Meta }.

Record Output := {
  out_granules : list Granule;
  out_process : option string
}.

(** The arguments of [new IngestClass(...)], in order. [None] for
    [ctor_duplicateHandling] is JavaScript's [null]. *)
Record CtorArgs := {
  ctor_buckets : Buckets;
  ctor_collection : option Collection;
  ctor_provider : Provider;
  ctor_fileStagingDir : string;
  ctor_forceDownload : bool;
  ctor_duplicateHandling : option string
}.

(** What the task does to its adapter, in the order it does it. *)
Inductive Action :=
| ActNew (args : CtorArgs)
| ActIngest (g : Granule) (bucket : string)
| ActEnd.


Definition is_ingest (a : Action) : bool :=
  match a with ActIngest _ _ => true | _ => false end.

(** How a promise settles. *)
Inductive Outcome (A : Type) :=
| Resolved (a : A)
| Rejected (e : Js.Error).
Arguments Resolved {A} a.
Arguments Rejected {A} e.

(** What a call of [syncGranule] gives its caller: a promise, or an
    exception thrown before any promise exists. *)
Inductive SyncResult :=
| Promise (o : Outcome Output)
| Threw (e : Js.Error).

(** JavaScript truthiness of an optional string. *)
Definition truthy (o : option string) : bool :=
  match o with
  | Some s => negb (String.eqb s "")
  | None => false
  end.

(** The output built by the [then] handler of [syncGranule]: the
    granules, and the collection's [process] when it has one. *)
Definition output_of (coll : option Collection) (gs : list Granule) : Output :=
  {| out_granules := gs;
     out_process := match coll with
                    | Some c => if truthy (process c) then process c else None
                    | None => None
                    end |}.

Section Engine.

(** Everything outside the task: the provider, the network, the staging
    bucket. The task reaches it only through its adapter. *)
Variable W : Type.

(** The state the model threads: the world and the log of adapter calls. *)
Record St := { world : W; trace : list Action }.

Definition M (A : Type) : Type := St -> St * Outcome A.

Definition ret {A} (a : A) : M A := fun st => (st, Resolved a).
Definition throw {A} (e : Js.Error) : M A := fun st => (st, Rejected e).
Definition bind {A B} (m : M A) (k : A -> M B) : M B :=
  fun st =>
    match m st with
    | (st', Resolved a) => k a st'
    | (st', Rejected e) => (st', Rejected e)
    end.
(** [try { m } catch (e) { h(e) }] and [promise.catch(h)]. *)
Definition catch {A} (m : M A) (h : Js.Error -> M A) : M A :=
  fun st =>
    match m st with
    | (st', Resolved a) => (st', Resolved a)
    | (st', Rejected e) => h e st'
    end.

Notation "'do' x <- m ; k" := (bind m (fun x => k))
  (at level 10, x name, m at level 100, k at level 200).

Definition record (a : Action) (st : St) : St :=
  {| world := world st; trace := trace st ++ [a] |}.

(** An ingest object: [ingest.ingest(granule, bucket)] returns a promise;
    [ingest.end], when the class defines it, returns or throws. *)
Record Ingest := {
  ingest : Granule -> string -> W -> W * Outcome Granule;
  end_ : option (W -> W * option Js.Error)
}.

(** A class of the ingest package: [new IngestClass(...)] makes an ingest
    object out of the six arguments. *)
Definition IngestClass : Type := CtorArgs -> Ingest.

(** [granule.selector('ingest', protocol)] of the ingest package: the
    class for the protocol, or the exception it throws. *)
Variable selector : string -> Js.Error + IngestClass.

(** [await ingest.ingest(g, bucket)] *)
Definition call_ingest (ing : Ingest) (g : Granule) (bucket : string)
  : M Granule :=
  fun st =>
    let st1 := record (ActIngest g bucket) st in
    let (w', r) := ingest ing g bucket (world st1) in
    ({| world := w'; trace := trace st1 |}, r).

(** [if (ingest.end) ingest.end();] *)
Definition call_end (ing : Ingest) : M unit :=
  match end_ ing with
  | None => ret tt
  | Some f =>
      fun st =>
        let st1 := record ActEnd st in
        let (w', r) := f (world st1) in
        ({| world := w'; trace := trace st1 |},
         match r with
         | None => Resolved tt
         | Some e => Rejected e
         end)
  end.

(** The loop of [download]: each granule is ingested and its result
    pushed; an error is logged and thrown again as it is. *)
Fixpoint download_loop (ing : Ingest) (bucket : string)
    (gs : list Granule) (updatedGranules : list Granule)
  : M (list Granule) :=
  match gs with
  | [] => ret updatedGranules
  | g :: rest =>
      do r <- catch (call_ingest ing g bucket) (fun e => throw e);
      download_loop ing bucket rest (updatedGranules ++ [r])
  end.

(** [download(ingest, bucket, provider, granules)]. The call of
    [lock.proceed] is commented out and [proceed] is the constant
    [true]. The closing log line reads [granules[0].granuleId], which
    throws on an empty list. *)
Definition download (ing : Ingest) (bucket : string) (prov : Provider)
    (gs : list Granule) : M (list Granule) :=
  let proceed := true in
  if negb proceed then
    throw (Js.ResourcesLockedError
             "Download lock remained in place after multiple tries")
  else
    do updatedGranules <- download_loop ing bucket gs [];
    match gs with
    | [] => throw (Js.TypeError "Cannot read property 'granuleId' of undefined")
    | _ :: _ => ret updatedGranules
    end.

(** The mode [syncGranule] resolves: it starts from [null] and takes the
    collection's value when there is a collection and the value is truthy. *)
Definition resolve_duplicateHandling (coll : option Collection)
  : option string :=
  let mode := None in
  if negb (truthy mode)
     && match coll with
        | Some c => truthy (duplicateHandling c)
        | None => false
        end
  then match coll with
       | Some c => duplicateHandling c
       | None => mode
       end
  else mode.

(** [path.join('file-staging', stack)] *)
Definition staging_dir (stk : string) : string :=
  Path.join ["file-staging"; stk].

(** The error the [catch] handler of [syncGranule] throws for [e]. *)
Definition errorToThrow (e : Js.Error) : Js.Error :=
  if Js.includes (Js.toString e) "ECONNREFUSED" then
    Js.RemoteResourceError "Connection Refused"
  else if Js.status_is_timeout e then
    Js.ConnectionTimeout "connection Timed out"
  else e.

Definition ctor_args (event : Event) (prov : Provider) : CtorArgs :=
  {| ctor_buckets := buckets (meta event);
     ctor_collection := collection (meta event);
     ctor_provider := prov;
     ctor_fileStagingDir := staging_dir (stack (meta event));
     ctor_forceDownload := false;
     ctor_duplicateHandling :=
       resolve_duplicateHandling (collection (meta event)) |}.

(** The two handlers chained on the promise of [download]. *)
Definition on_resolved (ing : Ingest) (coll : option Collection)
    (gs : list Granule) : M Output :=
  do _u <- call_end ing;
  ret (output_of coll gs).

Definition on_rejected (ing : Ingest) (e : Js.Error) : M Output :=
  do _u <- call_end ing;
  throw (errorToThrow e).

(** [syncGranule(event)] *)
Definition syncGranule (event : Event) (st : St) : St * SyncResult :=
  let input := payload event in
  let downloadBucket := bucket_name (private (buckets (meta event))) in
  match provider (meta event) with
  | None => (st, Promise (Rejected (Js.ProviderNotFound "Provider info not provided")))
  | Some prov =>
      match selector (protocol prov) with
      | inl e => (st, Threw e)
      | inr cls =>
          let args := ctor_args event prov in
          let ing := cls args in
          let st1 := record (ActNew args) st in
          let (st2, o) :=
            catch (do gs <- download ing downloadBucket prov (granules input);
                   on_resolved ing (collection (meta event)) gs)
                  (on_rejected ing) st1 in
          (st2, Promise o)
      end
  end.

End Engine.

Arguments world {W} _.
Arguments trace {W} _.
Arguments ingest {W} _ _ _ _.
Arguments end_ {W} _.

(** ** The staging key of a file *)



(** ** The lock coordinator *)

Module Lock.

(** Modelled from the spec: the lock module of the ingest package is not
    among the task's sources, and [download] has its calls commented out.
    The lock table is keyed by (providerId, granuleId); an entry carries
    its holder and an expiry. *)
Definition Key : Type := string * string.

Record Entry := { holder : nat; expiry : nat }.

#[export] Instance Entry_eq_dec : EqDecision Entry.
Proof. solve_decision. Defined.

Abbreviation Table := (gmap Key Entry).

(** Modelled from the spec: acquisition is a conditional insert into the
    shared table; it is refused while the key exists and is unexpired, and
    an expired entry is reclaimed by a later acquirer. *)
Definition try_acquire (ttl now who : nat) (k : Key) (tbl : Table)
  : option (Entry * Table) :=
  let mine := {| holder := who; expiry := now + ttl |} in
  match tbl !! k with
  | Some e =>
      if decide (now < expiry e) then None
      else Some (mine, <[k := mine]> tbl)
  | None => Some (mine, <[k := mine]> tbl)
  end.

(** Modelled from the spec: release is the conditional delete of the
    entry the token names; a lock is owned by the instance that made it. *)
Definition release (k : Key) (tok : Entry) (tbl : Table) : Table :=
  match tbl !! k with
  | Some e => if decide (e = tok) then delete k tbl else tbl
  | None => tbl
  end.

(** Modelled from the spec: [acquire(key, maxWaitMs)] as one caller sees
    it when nobody else writes the table meanwhile. A refused caller backs
    off and tries again until [maxWaitMs] has elapsed, then fails with
    ResourcesLockedError. [retries] is the number of tries left after
    this one. *)
Fixpoint acquire_retry (retries backoff ttl now who : nat) (k : Key)
    (tbl : Table) : Js.Error + (Entry * Table) :=
  match try_acquire ttl now who k tbl with
  | Some r => inr r
  | None =>
      match retries with
      | 0 => inl (Js.ResourcesLockedError
                    "Download lock remained in place after multiple tries")
      | S n => acquire_retry n backoff ttl (now + backoff) who k tbl
      end
  end.

Definition acquire (maxWaitMs backoff ttl now who : nat) (k : Key)
    (tbl : Table) : Js.Error + (Entry * Table) :=
  acquire_retry (maxWaitMs / backoff) backoff ttl now who k tbl.

(** Concurrent callers: each conditional write is one atomic call on the
    table, stamped with the table's clock. *)
Inductive Op :=
| TryAcquire (who : nat) (k : Key)
| Release (k : Key) (tok : Entry).

#[export] Instance Op_eq_dec : EqDecision Op.
Proof. solve_decision. Defined.

Record Call := { at_time : nat; op : Op }.

Inductive Reply :=
| Granted (tok : Entry)
| Denied
| Released.

Definition step (ttl : nat) (tbl : Table) (c : Call) : Table * Reply :=
  match op c with
  | TryAcquire who k =>
      match try_acquire ttl (at_time c) who k tbl with
      | Some (tok, tbl') => (tbl', Granted tok)
      | None => (tbl, Denied)
      end
  | Release k tok => (release k tok tbl, Released)
  end.

(** The calls in the order the table serves them, with their replies. *)
Fixpoint run (ttl : nat) (tbl : Table) (calls : list Call)
  : Table * list Reply :=
  match calls with
  | [] => (tbl, [])
  | c :: rest =>
      let (tbl1, r) := step ttl tbl c in
      let (tbl2, rs) := run ttl tbl1 rest in
      (tbl2, r :: rs)
  end.

(** The clock never runs backwards along the calls. *)
Fixpoint clock_ok (t : nat) (calls : list Call) : Prop :=
  match calls with
  | [] => True
  | c :: rest => t <= at_time c /\ clock_ok (at_time c) rest
  end.

End Lock.

(** ** The duplicate policy *)

Module Policy.

Inductive DuplicateHandlingMode :=
| ModeError
| ModeSkip
| ModeReplace
| ModeVersion.

(** A staged or fetched object: its bytes, with the size and the checksum
    known for it. *)
Record Object := {
  bytes : string;
  size : nat;
  checksum : option string
}.

Abbreviation Store := (gmap string Object).

Inductive Decision :=
| Proceed
| Reject (e : Js.Error)
| SkipKeepExisting
| Replace
| Version.

Definition DuplicateFileError := Js.mkError "DuplicateFile".

(** Checksums prove sameness only when both sides have one. *)
Definition identical (existing incoming : Object) : bool :=
  match checksum existing, checksum incoming with
  | Some a, Some b => String.eqb a b
  | _, _ => false
  end.

(** Modelled from the spec: the duplicate policy evaluator; the code
    that decides it is Granule.ingestFile of the ingest package, not
    among the task's sources. No existing file: proceed. An existing file
    under [skip]: keep it. Under the other modes an identical file
    proceeds and a different one (or one that cannot be compared) is
    rejected, replaced or versioned. *)
Definition evaluate (existing : option Object) (incoming : Object)
    (mode : DuplicateHandlingMode) : Decision :=
  match existing with
  | None => Proceed
  | Some ex =>
      match mode with
      | ModeSkip => SkipKeepExisting
      | ModeError =>
          if identical ex incoming then Proceed
          else Reject (DuplicateFileError "duplicate file")
      | ModeReplace => if identical ex incoming then Proceed else Replace
      | ModeVersion => if identical ex incoming then Proceed else Version
      end
  end.

(** The output record of one file. *)
Record FileRecord := {
  rec_key : string;
  rec_size : nat;
  rec_checksum : option string;
  rec_duplicate_found : bool
}.

Definition record_of (key : string) (o : Object) (dup : bool) : FileRecord :=
  {| rec_key := key; rec_size := size o; rec_checksum := checksum o;
     rec_duplicate_found := dup |}.

Section Stage.

(** The name under which [version] stages an incoming file. *)
Variable disambiguate : Store -> string -> string.

(** Modelled from the spec: what the orchestrator does with one fetched
    file once the policy has decided. A rejection aborts; proceed and
    replace write the destination key; version writes a disambiguated
    key; skip discards the incoming bytes and finalizes the record on the
    object already there, flagged [duplicate_found]. *)
Definition stageFile (store : Store) (key : string) (incoming : Object)
    (mode : DuplicateHandlingMode) : Js.Error + (Store * FileRecord) :=
  let existing := store !! key in
  match evaluate existing incoming mode with
  | Reject e => inl e
  | Proceed =>
      inr (<[key := incoming]> store,
           record_of key incoming (bool_decide (is_Some existing)))
  | Replace => inr (<[key := incoming]> store, record_of key incoming true)
  | Version =>
      let key' := disambiguate store key in
      inr (<[key' := incoming]> store, record_of key' incoming true)
  | SkipKeepExisting =>
      inr (store, record_of key (default incoming existing) true)
  end.

End Stage.

End Policy.


Arguments St W : clear implicits.
Arguments M W A : clear implicits.
Arguments Ingest W : clear implicits.
Arguments IngestClass W : clear implicits.
Arguments ret {W A} a _.
Arguments throw {W A} e _.
Arguments bind {W A B} m k _.
Arguments catch {W A} m h _.
Arguments record {W} a st.
Arguments call_ingest {W} ing g bucket _.
Arguments call_end {W} ing.
Arguments download_loop {W} ing bucket gs updatedGranules.
Arguments download {W} ing bucket prov gs.
Arguments on_resolved {W} ing coll gs.
Arguments on_rejected {W} ing e.
Arguments syncGranule {W} selector event st.

(** ** Vocabulary of the statements *)

(** How many logged actions satisfy [p]. *)
Definition count (p : Action -> bool) (tr : list Action) : nat :=
  length (List.filter p tr).

(** The constructor arguments logged in a trace. *)
Definition constructed (tr : list Action) : list CtorArgs :=
  omap (fun a => match a with ActNew args => Some args | _ => None end) tr.

(** [ingested ing bucket w gs rs w']: starting in world [w], the
    granules [gs] are ingested one after the other, each from the world
    its predecessor left, every one resolves, [rs] are the results in
    order and [w'] is the world at the end. *)
Inductive ingested {W} (ing : Ingest W) (bucket : string)
  : W -> list Granule -> list Granule -> W -> Prop :=
| ingested_nil w : ingested ing bucket w [] [] w
| ingested_cons w g r w1 gs rs w2 :
    ingest ing g bucket w = (w1, Resolved r) ->
    ingested ing bucket w1 gs rs w2 ->
    ingested ing bucket w (g :: gs) (r :: rs) w2.

(** The teardown of the adapter keeps its contract: it is safe to call,
    it returns and does not throw. *)
Definition end_returns {W} (ing : Ingest W) : Prop :=
  forall f w, end_ ing = Some f -> (f w).2 = None.

(** One more teardown in the log when the class has one, none otherwise. *)
Definition ends_expected {W} (ing : Ingest W) : nat :=
  match end_ ing with Some _ => 1 | None => 0 end.

(** ** A small provider to run the task against *)

Module Bench.

(** The world of the runs below: the lock table and the ids of the
    granules staged so far. *)
Record World := {
  locks : gmap Lock.Key Lock.Entry;
  staged : list string;
  teardowns : nat
}.

Definition stage (id : string) (w : World) : World :=
  {| locks := locks w; staged := staged w ++ [id]; teardowns := teardowns w |}.

Definition torn_down (w : World) : World :=
  {| locks := locks w; staged := staged w; teardowns := S (teardowns w) |}.

Definition refused_and_timed_out : Js.Error :=
  {| Js.name := "Error";
     Js.message := "connect ECONNREFUSED 10.0.0.1:21";
     Js.details := Some {| Js.status := Some "timeout" |} |}.

Definition not_found : Js.Error := Js.mkError "FileNotFound" "no such file".

(** A store-backed adapter: a granule named "MISSING" is not found, any
    other is staged and returned. *)
Definition s3_adapter (args : CtorArgs) : Ingest World :=
  {| ingest := fun g _ w =>
       if String.eqb (granuleId g) "MISSING" then (w, Rejected not_found)
       else (stage (granuleId g) w, Resolved g);
     end_ := Some (fun w => (torn_down w, None)) |}.

(** An adapter whose host refuses the connection. *)
Definition ftp_adapter (args : CtorArgs) : Ingest World :=
  {| ingest := fun _ _ w => (w, Rejected refused_and_timed_out);
     end_ := Some (fun w => (torn_down w, None)) |}.

(** An adapter whose teardown breaks its contract and throws. *)
Definition broken_adapter (args : CtorArgs) : Ingest World :=
  {| ingest := fun g _ w => (stage (granuleId g) w, Resolved g);
     end_ := Some (fun w => (torn_down w, Some (Js.mkError "Error" "socket closed"))) |}.

Definition selector (proto : string) : Js.Error + IngestClass World :=
  if String.eqb proto "s3" then inr s3_adapter
  else if String.eqb proto "ftp" then inr ftp_adapter
  else if String.eqb proto "broken" then inr broken_adapter
  else inl (Js.mkError "Error" ("Protocol " +:+ proto +:+ " is not supported.")).

Definition granule (id : string) : Granule :=
  {| granuleId := id; dataType := Some "MOD09GQ"; files := [] |}.

Definition the_buckets : Buckets :=
  {| private := {| bucket_name := "stack-private"; bucket_type := "private" |};
     other_buckets := [] |}.

Definition the_provider (proto : string) : Provider :=
  {| provider_id := Some "prov"; protocol := proto; host := "example.org" |}.

Definition the_collection (mode : option string) : Collection :=
  {| collection_name := "MOD09GQ"; collection_version := "006";
     duplicateHandling := mode; process := Some "modis" |}.

Definition event (prov : option Provider) (coll : option Collection)
    (ids : list string) : Event :=
  {| payload := {| granules := map granule ids |};
     meta := {| stack := "my-stack"; buckets := the_buckets;
                provider := prov; collection := coll |} |}.

Definition lock_key : Lock.Key := ("prov", "G1").

(** A lock on (prov, G1) that somebody else holds for a long time. *)
Definition held : gmap Lock.Key Lock.Entry :=
  {[ lock_key := {| Lock.holder := 7; Lock.expiry := 900 |} ]}.

Definition start (tbl : gmap Lock.Key Lock.Entry) : St World :=
  {| world := {| locks := tbl; staged := []; teardowns := 0 |}; trace := [] |}.


End Bench.

(** ** The Lambda handler of the task *)

(** The payload and the meta of the message the handler passes on:
    [Object.assign({}, event.payload, data)] and the event's meta with
    the two timing fields. A later task may receive a message without
    them, hence the options. *)
Record OutPayload := {
  op_granules : list Granule;
  op_process : option string
}.

Record TimedMeta := {
  base_meta : Meta;
  sync_granule_duration : option Z;
  sync_granule_end_time : option Z
}.

Record TimedEvent := { t_payload : OutPayload; t_meta : TimedMeta }.

(** What the handler does with its callback, if anything. *)
Inductive Callback :=
| CbError (e : Js.Error)
| CbResult (ev : TimedEvent).

Inductive Handled :=
| Called (c : Callback)
| HandlerThrew (e : Js.Error).

Section Handler.

Variable W : Type.
Variable selector : string -> Js.Error + IngestClass W.

(** [Date.now()], read off the world. *)
Variable now : W -> Z.

(** [exports.handler(event, context, callback)]: the start time is read
    first; the [then] handler reads the end time and calls back with the
    event extended; the [catch] handler calls back with the error. An
    exception of [syncGranule] itself leaves the handler before any
    promise exists. *)
Definition handler (event : Event) (st : St W) : St W * Handled :=
  let startTime := now (world st) in
  match syncGranule selector event st with
  | (st', Threw e) => (st', HandlerThrew e)
  | (st', Promise (Rejected err)) => (st', Called (CbError err))
  | (st', Promise (Resolved data)) =>
      let endTime := now (world st') in
      let meta' := {| base_meta := meta event;
                      sync_granule_duration := Some (endTime - startTime)%Z;
                      sync_granule_end_time := Some endTime |} in
      let payload' := {| op_granules := out_granules data;
                         op_process := out_process data |} in
      (st', Called (CbResult {| t_payload := payload'; t_meta := meta' |}))
  end.

End Handler.

Arguments handler {W} selector now event st.

(** ** The cleanup task that follows the sync *)

Module Cleanup.

(** Node's posix [path.basename(path)]: the last segment that is not
    empty, trailing slashes dropped; empty when there is none. *)
Definition basename (path : string) : string :=
  default "" (last (filter (fun s => s <> "") (Path.split_on Path.slash path))).

(** A template literal prints a missing property as "undefined". *)
Definition interpolate (o : option string) : string :=
  default "undefined" o.

(** [`${n}`] for a safe integer, one of magnitude at most 2^53, which
    JavaScript prints digit by digit; beyond that range a number is
    rounded and, from 1e21 on, printed with an exponent. *)
Definition show_Z (n : Z) : string := NilZero.string_of_int (Z.to_int n).

Inductive Reply :=
| Failure (msg : string)
| Success (ev : TimedEvent).

Section Task.

Variable W : Type.

(** [aws.deleteS3Object(bucket, key)]: the request goes out; the task
    does not wait for what becomes of it. *)
Variable deleteS3Object : option string -> string -> W -> W.

(** [cleanFiles(payload)]: an async function, so whatever goes wrong in
    it rejects its promise. It reads the first file of the first granule
    and deletes [fileStagingDir/basename(filename)] from the file's
    bucket; [path.basename] refuses a missing filename. *)
Definition cleanFiles (payload : OutPayload) (w : W) : W * Outcome unit :=
  match op_granules payload with
  | [] => (w, Rejected (Js.TypeError "Cannot read property 'files' of undefined"))
  | g :: _ =>
      match files g with
      | [] => (w, Rejected (Js.TypeError "Cannot read property 'bucket' of undefined"))
      | obj :: _ =>
          match filename obj with
          | None => (w, Rejected (Js.TypeError "Path must be a string. Received undefined"))
          | Some fname =>
              let key := interpolate (fileStagingDir obj) +:+ "/" +:+ basename fname in
              (deleteS3Object (file_bucket obj) key w, Resolved tt)
          end
      end
  end.

(** The handler: [cleanFiles] is called and not awaited, so the [catch]
    around the call never runs; then one callback, decided by the
    duration alone. A missing duration compares false. *)
Definition handler (event : TimedEvent) (w : W) : W * list Reply :=
  let syncDuration := sync_granule_duration (t_meta event) in
  let (w', _) := cleanFiles (t_payload event) w in
  match syncDuration with
  | Some d =>
      if (d >? 2 * 60 * 1000)%Z then
        (w', [Failure ("SyncGranule Took too long to finish " +:+ show_Z d)])
      else (w', [Success event])
  | None => (w', [Success event])
  end.

End Task.

End Cleanup.

Arguments Cleanup.cleanFiles {W} deleteS3Object payload w.
Arguments Cleanup.handler {W} deleteS3Object event w.

(** ** Retrying until a condition holds *)

Module Wait.

(** An option as the caller may have written it: left out, an integer,
    or anything that [isInteger] refuses. *)
Inductive OptNum :=
| Undefined
| Integer (z : Z)
| NotInteger.

(** What [condition] gives back: a boolean, or anything else. *)
Inductive CondResult :=
| IsBoolean (b : bool)
| NotBoolean.

Definition TimeoutError : Js.Error :=
  {| Js.name := "TimeoutError";
     Js.message := "waitForConditionalValue timed out";
     Js.details := None |}.

(** A destructuring default applies to a missing property only. *)
Definition or_default (d : Z) (o : OptNum) : OptNum :=
  match o with
  | Undefined => Integer d
  | _ => o
  end.

(** [!isInteger(x) || x <= 0] *)
Definition positive_integer (o : OptNum) : option Z :=
  match o with
  | Integer z => if (z <=? 0)%Z then None else Some z
  | _ => None
  end.

Section Loop.

Variables W V : Type.

(** [Date.now()] and [await sleep(ms)]. *)
Variable now : W -> Z.
Variable sleep : Z -> W -> W.

Definition Fn : Type := W -> W * Outcome V.
Definition Condition : Type := V -> W -> W * Outcome CondResult.

(** The [while (true)] loop. [fuel] bounds the rounds the model may run,
    [tries] counts the calls of [fn] made so far. *)
Fixpoint loop (fuel : nat) (fn : Fn) (condition : Condition)
    (interval timeoutAt : Z) (tries : nat) (w : W)
  : option (W * Outcome V * nat) :=
  match fuel with
  | 0 => None
  | S fuel' =>
      match fn w with
      | (w1, Rejected e) => Some (w1, Rejected e, S tries)
      | (w1, Resolved value) =>
          match condition value w1 with
          | (w2, Rejected e) => Some (w2, Rejected e, S tries)
          | (w2, Resolved NotBoolean) =>
              Some (w2,
                    Rejected (Js.TypeError
                      "condition must return or resolve to a boolean"),
                    S tries)
          | (w2, Resolved (IsBoolean true)) => Some (w2, Resolved value, S tries)
          | (w2, Resolved (IsBoolean false)) =>
              if (now w2 + interval >=? timeoutAt)%Z then
                Some (w2, Rejected TimeoutError, S tries)
              else loop fuel' fn condition interval timeoutAt (S tries)
                     (sleep interval w2)
          end
      end
  end.

(** [waitForConditionalValue(fn, condition, { interval, timeout })];
    [None] for [fn] or [condition] is a value that is not a function. *)
Definition waitForConditionalValue (fuel : nat) (fn : option Fn)
    (condition : option Condition) (interval timeout : OptNum) (w : W)
  : option (W * Outcome V * nat) :=
  match fn with
  | None => Some (w, Rejected (Js.TypeError "fn must be a function"), 0)
  | Some fn =>
      match condition with
      | None =>
          Some (w, Rejected (Js.TypeError "condition must be a function"), 0)
      | Some condition =>
          match positive_integer (or_default 1000 interval) with
          | None =>
              Some (w, Rejected (Js.TypeError
                                   "interval must be a positive integer"), 0)
          | Some interval =>
              match positive_integer (or_default 5000 timeout) with
              | None =>
                  Some (w, Rejected (Js.TypeError
                                       "timeout must be a positive integer"), 0)
              | Some timeout =>
                  let timeoutAt := (now w + timeout)%Z in
                  loop fuel fn condition interval timeoutAt 0 w
              end
          end
      end
  end.

(** The rounds that can fit before the deadline. *)
Definition rounds (interval timeout : Z) : nat :=
  S (Z.to_nat ((timeout - 1) / interval)).

(** The clock does not run backwards under [fn] and [condition], and a
    sleep lasts at least as long as asked. *)
Definition clock_monotone (fn : Fn) (condition : Condition) : Prop :=
  (forall w, now w <= now (fn w).1)%Z /\
  (forall v w, now w <= now (condition v w).1)%Z /\
  (forall ms w, now w + ms <= now (sleep ms w))%Z.

End Loop.

End Wait.

Arguments Wait.loop {W V} now sleep fuel fn condition interval timeoutAt tries w.
Arguments Wait.waitForConditionalValue {W V} now sleep fuel fn condition interval timeout w.
Arguments Wait.clock_monotone {W V} now sleep fn condition.

(** ** Waiting for an async operation *)

Module AsyncOp.

(** The item of the AsyncOperations table, as far as it is read:
    [Item.status.S]. *)
Record Item := { item_id : string; item_status : string }.

Section Poll.

Variable W : Type.

(** [dynamodb().getItem({ TableName, Key }).promise()]: the item, if the
    table has one under the key. *)
Variable getItem : string -> string -> W -> W * Outcome (option Item).
Variable sleep : Z -> W -> W.

(** The recursion, on the retries left; [reads] counts the calls of
    [getItem] made so far. *)
Fixpoint poll (retries : nat) (TableName id status : string) (reads : nat)
    (w : W) : W * Outcome Item * nat :=
  match getItem TableName id w with
  | (w1, Rejected e) => (w1, Rejected e, S reads)
  | (w1, Resolved None) =>
      (w1, Rejected (Js.TypeError "Cannot read property 'status' of undefined"),
       S reads)
  | (w1, Resolved (Some item)) =>
      if String.eqb (item_status item) status then (w1, Resolved item, S reads)
      else
        match retries with
        | 0 => (w1, Resolved item, S reads)
        | S retries' =>
            poll retries' TableName id status (S reads) (sleep 2000 w1)
        end
  end.

(** [waitForAsyncOperationStatus({ TableName, id, status, retries = 5 })];
    any [retries <= 0] stops after the first read. *)
Definition waitForAsyncOperationStatus (TableName id status : string)
    (retries : option Z) (w : W) : W * Outcome Item * nat :=
  poll (Z.to_nat (default 5%Z retries)) TableName id status 0 w.

End Poll.

End AsyncOp.

Arguments AsyncOp.poll {W} getItem sleep retries TableName id status reads w.
Arguments AsyncOp.waitForAsyncOperationStatus {W} getItem sleep TableName id status retries w.

(** ** Waiting for an execution to complete *)

Module Execution.

(** [['RUNNING', 'STARTING'].includes(executionStatus)] *)
Definition in_progress (status : string) : bool :=
  String.eqb status "RUNNING" || String.eqb status "STARTING".

(** [err.code === 'ExecutionDoesNotExist'] *)
Definition does_not_exist (code : option string) : bool :=
  match code with
  | Some c => String.eqb c "ExecutionDoesNotExist"
  | None => false
  end.

(** What [describeExecution] resolves to, as far as it is read. *)
Record Described := { execution_status : string }.

Definition sleepPeriodMs : Z := 5000.
Definition maxMinutesWaitedForExecutionStart : Z := 5.
Definition iterationsPerMinute : Z := 60000 / sleepPeriodMs.
Definition maxIterationsToStart : Z :=
  maxMinutesWaitedForExecutionStart * iterationsPerMinute.

Section Poll.

Variable W : Type.
Variable now : W -> Z.
Variable sleep : Z -> W -> W.

(** [describeExecution(executionArn)] of the common package: the
    execution, or the error thrown with its [code]. *)
Variable describeExecution :
  string -> W -> W * (Js.Error * option string + Described).

(** [getExecutionStatus(executionArn)]: the status of the execution; an
    error is caught and thrown again as it is. *)
Definition getExecutionStatus (executionArn : string) (w : W)
  : W * (Js.Error * option string + string) :=
  match describeExecution executionArn w with
  | (w', inr execution) => (w', inr (execution_status execution))
  | (w', inl err) => (w', inl err)
  end.

(** [getExecutionHistory({ executionArn, maxResults: 100 })]; its
    result is only printed. *)
Variable getExecutionHistory : string -> W -> W * Outcome unit.

(** The [do ... while] loop; [iteration] counts the polls made so far.
    The result is the status the loop ends with, or the error it throws. *)
Fixpoint polling (fuel : nat) (executionArn : string) (stopTime : Z)
    (iteration : Z) (w : W) : option (W * Outcome string * Z) :=
  match fuel with
  | 0 => None
  | S fuel' =>
      let iteration := (iteration + 1)%Z in
      let next (executionStatus : string) (w1 : W) :=
        let w2 := sleep sleepPeriodMs w1 in
        if in_progress executionStatus && (now w2 <? stopTime)%Z then
          polling fuel' executionArn stopTime iteration w2
        else Some (w2, Resolved executionStatus, iteration) in
      match getExecutionStatus executionArn w with
      | (w1, inr executionStatus) => next executionStatus w1
      | (w1, inl (err, code)) =>
          if negb (does_not_exist code) || (iteration >? maxIterationsToStart)%Z
          then Some (w1, Rejected err, iteration)
          else next "STARTING" w1
      end
  end.

(** [waitForCompletedExecution(executionArn, timeout = 600)], the
    timeout in seconds. A status still RUNNING at the end has the
    history fetched and printed before it is returned. *)
Definition waitForCompletedExecution (fuel : nat) (executionArn : string)
    (timeout : option Z) (w : W) : option (W * Outcome string * Z) :=
  let timeout := default 600%Z timeout in
  let stopTime := (now w + timeout * 1000)%Z in
  match polling fuel executionArn stopTime 0 w with
  | None => None
  | Some (w1, Rejected e, n) => Some (w1, Rejected e, n)
  | Some (w1, Resolved executionStatus, n) =>
      if String.eqb executionStatus "RUNNING" then
        match getExecutionHistory executionArn w1 with
        | (w2, Rejected e) => Some (w2, Rejected e, n)
        | (w2, Resolved _) => Some (w2, Resolved executionStatus, n)
        end
      else Some (w1, Resolved executionStatus, n)
  end.


(** The clock does not run backwards under the two requests, and a
    sleep lasts at least as long as asked. *)
Definition clock_monotone : Prop :=
  (forall arn w, now w <= now (describeExecution arn w).1)%Z /\
  (forall arn w, now w <= now (getExecutionHistory arn w).1)%Z /\
  (forall ms w, now w + ms <= now (sleep ms w))%Z.

End Poll.

End Execution.

Arguments Execution.getExecutionStatus {W} describeExecution executionArn w.
Arguments Execution.polling {W} now sleep describeExecution fuel executionArn stopTime iteration w.
Arguments Execution.waitForCompletedExecution {W} now sleep describeExecution getExecutionHistory fuel executionArn timeout w.
Arguments Execution.clock_monotone {W} now sleep describeExecution getExecutionHistory.

(** ** More of the bench *)

Module Bench2.

(** A clock for the bench world: every staged granule took 40 seconds
    and every teardown one second. *)
Definition now (w : Bench.World) : Z :=
  (40000 * Z.of_nat (length (Bench.staged w))
   + 1000 * Z.of_nat (Bench.teardowns w))%Z.

(** A bucket as the list of delete requests it received. *)
Definition deleteS3Object (bucket : option string) (key : string)
    (w : list (option string * string)) : list (option string * string) :=
  w ++ [(bucket, key)].



Definition s3 : Provider := Bench.the_provider "s3".

Definition two_granules : Event :=
  Bench.event (Some s3) (Some (Bench.the_collection (Some "skip"))) ["G1"; "G2"].

Definition the_message : TimedEvent :=
  {| t_payload := {| op_granules := map Bench.granule ["G1"; "G2"];
                     op_process := Some "modis" |};
     t_meta := {| base_meta := meta two_granules;
                  sync_granule_duration := Some 81000%Z;
                  sync_granule_end_time := Some 81000%Z |} |}.

(** The clock and counter of the example in the documentation of
    [waitForConditionalValue]: [fn] is [() => ++x]. *)
Record Counter := { clock : Z; x : Z }.

Definition tick (ms : Z) (w : Counter) : Counter :=
  {| clock := (clock w + ms)%Z; x := x w |}.

Definition incr : Wait.Fn Counter Z :=
  fun w => ({| clock := clock w; x := (x w + 1)%Z |}, Resolved (x w + 1)%Z).

Definition at_least (n : Z) : Wait.Condition Counter Z :=
  fun v w => (w, Resolved (Wait.IsBoolean (n <=? v)%Z)).

Definition never : Wait.Condition Counter Z :=
  fun _ w => (w, Resolved (Wait.IsBoolean false)).

(** A table whose operation reports the statuses of the list, one per
    read, and stays on the last. *)
Definition getItem (TableName id : string) (w : list string)
  : list string * Outcome (option AsyncOp.Item) :=
  match w with
  | [] => ([], Resolved None)
  | [s] => ([s], Resolved (Some {| AsyncOp.item_id := id; AsyncOp.item_status := s |}))
  | s :: rest => (rest, Resolved (Some {| AsyncOp.item_id := id; AsyncOp.item_status := s |}))
  end.

Definition zero : Counter := {| clock := 0; x := 0 |}.

(** A state machine seen from outside: the clock and the number of
    polls answered; the execution does not exist for the first two
    polls, runs for the next two and then has succeeded. *)
Definition describe (arn : string) (w : Counter)
  : Counter * (Js.Error * option string + Execution.Described) :=
  let w' := {| clock := clock w; x := (x w + 1)%Z |} in
  if (x w <? 2)%Z then
    (w', inl (Js.mkError "ExecutionDoesNotExist" "Execution Does Not Exist",
              Some "ExecutionDoesNotExist"))
  else if (x w <? 4)%Z then (w', inr {| Execution.execution_status := "RUNNING" |})
  else (w', inr {| Execution.execution_status := "SUCCEEDED" |}).

(** An execution that never leaves RUNNING. *)
Definition stuck (arn : string) (w : Counter)
  : Counter * (Js.Error * option string + Execution.Described) :=
  ({| clock := clock w; x := (x w + 1)%Z |},
   inr {| Execution.execution_status := "RUNNING" |}).

(** A caller that may not describe executions. *)
Definition access_denied : Js.Error :=
  Js.mkError "AccessDeniedException" "not authorized to perform DescribeExecution".

Definition denied (arn : string) (w : Counter)
  : Counter * (Js.Error * option string + Execution.Described) :=
  ({| clock := clock w; x := (x w + 1)%Z |},
   inl (access_denied, Some "AccessDeniedException")).

Definition history (arn : string) (w : Counter) : Counter * Outcome unit :=
  (w, Resolved tt).

End Bench2.

(** ** The event as it arrives *)

(** The records above type the event as a run that reaches the adapter
    needs it. The message a Lambda receives promises less: any of the
    fields the task reads may be missing. [None] stands for a property
    that is [undefined] (for [raw_stack]: that is not a string). *)
Record RawBuckets := {
  raw_private : option Bucket;
  raw_other_buckets : list (string * Bucket)
}.

Record RawMeta := {
  raw_stack : option string;
  raw_buckets : option RawBuckets;
  raw_provider : option Provider;
  raw_collection : option Collection
}.

Record RawPayload := { raw_granules : option (list Granule) }.

Record RawEvent := {
  raw_payload : option RawPayload;
  raw_meta : option RawMeta
}.

(** The message the handler passes on for a raw event. *)
Record RawTimedEvent := {
  rt_payload : OutPayload;
  rt_meta : option RawMeta;
  rt_duration : Z;
  rt_end_time : Z
}.

Inductive RawCallback :=
| RawCbError (e : Js.Error)
| RawCbResult (ev : RawTimedEvent).

Inductive RawHandled :=
| RawCalled (c : RawCallback)
| RawHandlerThrew (e : Js.Error).

(** Reading a property of [undefined]. The texts of the engine's
    TypeErrors are those of Node 8, the version the package asks for;
    the statements below rely on the name of the error only. *)
Definition cannot_read (prop : string) : Js.Error :=
  Js.TypeError ("Cannot read property '" +:+ prop +:+ "' of undefined").

Definition raw_ctor_args (m : RawMeta) (bs : RawBuckets) (priv : Bucket)
    (stk : string) (prov : Provider) : CtorArgs :=
  {| ctor_buckets := {| private := priv;
                        other_buckets := raw_other_buckets bs |};
     ctor_collection := raw_collection m;
     ctor_provider := prov;
     ctor_fileStagingDir := staging_dir stk;
     ctor_forceDownload := false;
     ctor_duplicateHandling := resolve_duplicateHandling (raw_collection m) |}.

(** The typed event, seen as a raw one. *)
Definition raw_of_event (event : Event) : RawEvent :=
  {| raw_payload := Some {| raw_granules := Some (granules (payload event)) |};
     raw_meta :=
       Some {| raw_stack := Some (stack (meta event));
               raw_buckets :=
                 Some {| raw_private := Some (private (buckets (meta event)));
                         raw_other_buckets := other_buckets (buckets (meta event)) |};
               raw_provider := provider (meta event);
               raw_collection := collection (meta event) |} |}.

Section RawEngine.

Variable W : Type.

(** A class whose constructor may throw. *)
Definition RawClass : Type := CtorArgs -> Js.Error + Ingest W.

Variable selector : string -> Js.Error + RawClass.
Variable now : W -> Z.

(** [download] called with [input.granules] as it is: the [for ... of]
    over [undefined] throws inside the async function. *)
Definition download_raw (ing : Ingest W) (bucket : string) (prov : Provider)
    (gs : option (list Granule)) : M W (list Granule) :=
  match gs with
  | Some gs => download ing bucket prov gs
  | None => throw (Js.TypeError "granules is not iterable")
  end.

(** [syncGranule(event)], statement by statement: the reads of
    [event.meta.*] and [path.join] come before the provider check;
    [input.granules] is read after the adapter is constructed. *)
Definition syncGranule_raw (event : RawEvent) (st : St W)
  : St W * SyncResult :=
  let input := raw_payload event in
  match raw_meta event with
  | None => (st, Threw (cannot_read "stack"))
  | Some m =>
      match raw_buckets m with
      | None => (st, Threw (cannot_read "private"))
      | Some bs =>
          match raw_private bs with
          | None => (st, Threw (cannot_read "name"))
          | Some priv =>
              let downloadBucket := bucket_name priv in
              match raw_stack m with
              | None =>
                  (st, Threw (Js.TypeError
                                "Path must be a string. Received undefined"))
              | Some stk =>
                  match raw_provider m with
                  | None =>
                      (st, Promise (Rejected (Js.ProviderNotFound
                                                "Provider info not provided")))
                  | Some prov =>
                      match selector (protocol prov) with
                      | inl e => (st, Threw e)
                      | inr cls =>
                          let args := raw_ctor_args m bs priv stk prov in
                          match cls args with
                          | inl e => (st, Threw e)
                          | inr ing =>
                              let st1 := record (ActNew args) st in
                              match input with
                              | None => (st1, Threw (cannot_read "granules"))
                              | Some p =>
                                  let (st2, o) :=
                                    catch
                                      (bind (download_raw ing downloadBucket
                                               prov (raw_granules p))
                                         (on_resolved ing (raw_collection m)))
                                      (on_rejected ing) st1 in
                                  (st2, Promise o)
                              end
                          end
                      end
                  end
              end
          end
      end
  end.

(** [exports.handler(event, context, callback)] on the raw event. *)
Definition handler_raw (event : RawEvent) (st : St W) : St W * RawHandled :=
  let startTime := now (world st) in
  match syncGranule_raw event st with
  | (st', Threw e) => (st', RawHandlerThrew e)
  | (st', Promise (Rejected err)) => (st', RawCalled (RawCbError err))
  | (st', Promise (Resolved data)) =>
      let endTime := now (world st') in
      (st', RawCalled (RawCbResult
         {| rt_payload := {| op_granules := out_granules data;
                             op_process := out_process data |};
            rt_meta := raw_meta event;
            rt_duration := (endTime - startTime)%Z;
            rt_end_time := endTime |}))
  end.

End RawEngine.

Arguments RawClass W : clear implicits.
Arguments download_raw {W} ing bucket prov gs _.
Arguments syncGranule_raw {W} selector event st.
Arguments handler_raw {W} selector now event st.

(** A selector of classes whose constructors do not throw, seen as a
    raw one. *)
Definition raw_of_selector {W} (selector : string -> Js.Error + IngestClass W)
    (proto : string) : Js.Error + RawClass W :=
  match selector proto with
  | inl e => inl e
  | inr cls => inr (fun args => inr (cls args))
  end.

Module BenchRaw.

Definition meta_with (stk : option string) (prov : option Provider) : RawMeta :=
  {| raw_stack := stk;
     raw_buckets := Some {| raw_private := Some (private Bench.the_buckets);
                            raw_other_buckets := [] |};
     raw_provider := prov;
     raw_collection := None |}.

Definition event (stk : option string) (prov : option Provider)
    (ids : option (list string)) : RawEvent :=
  {| raw_payload :=
       match ids with
       | Some ids => Some {| raw_granules := Some (map Bench.granule ids) |}
       | None => None
       end;
     raw_meta := Some (meta_with stk prov) |}.

(** The bench selector, with one more class whose constructor throws. *)
Definition selector (proto : string) : Js.Error + RawClass Bench.World :=
  if String.eqb proto "abstract" then
    inr (fun _ => inl (Js.TypeError "Can not construct abstract class."))
  else raw_of_selector Bench.selector proto.

End BenchRaw.
(** * Properties *)

(** ** The definitions on small inputs *)

Example join_staging : Path.join ["file-staging"; "my-stack"] = "file-staging/my-stack".
Proof. reflexivity. Qed.

Example join_dotdot : Path.join ["file-staging"; "../x/"] = "x/".
Proof. reflexivity. Qed.

Example join_empty : Path.join ["file-staging"; ""] = "file-staging".
Proof. reflexivity. Qed.

Example includes_refused :
  Js.includes "Error: connect ECONNREFUSED 127.0.0.1:21" "ECONNREFUSED" = true.
Proof. reflexivity. Qed.

Example join_absolute : Path.join ["/tmp//a"; "."; "b/.."; "c"] = "/tmp/a/c".
Proof. reflexivity. Qed.

Example join_nothing : Path.join [""; ""] = ".".
Proof. reflexivity. Qed.

Example toString_named :
  Js.toString (Js.ProviderNotFound "Provider info not provided")
  = "ProviderNotFound: Provider info not provided".
Proof. reflexivity. Qed.

Example resolve_skip :
  resolve_duplicateHandling (Some (Bench.the_collection (Some "skip"))) = Some "skip".
Proof. reflexivity. Qed.

Example resolve_empty_string :
  resolve_duplicateHandling (Some (Bench.the_collection (Some ""))) = None.
Proof. reflexivity. Qed.

Example sync_two_granules :
  (syncGranule Bench.selector
     (Bench.event (Some (Bench.the_provider "s3"))
        (Some (Bench.the_collection (Some "skip"))) ["G1"; "G2"])
     (Bench.start ∅)).2
  = Promise (Resolved {| out_granules := map Bench.granule ["G1"; "G2"];
                         out_process := Some "modis" |}).
Proof. reflexivity. Qed.

Example sync_unknown_protocol :
  (syncGranule Bench.selector
     (Bench.event (Some (Bench.the_provider "gopher")) None ["G1"])
     (Bench.start ∅)).2
  = Threw (Js.mkError "Error" "Protocol gopher is not supported.").
Proof. reflexivity. Qed.

Example sync_no_granules :
  (syncGranule Bench.selector
     (Bench.event (Some (Bench.the_provider "s3")) None []) (Bench.start ∅)).2
  = Promise (Rejected (Js.TypeError "Cannot read property 'granuleId' of undefined")).
Proof. reflexivity. Qed.

(** ** [path.join] on plain segments *)

Module PathFacts.
Import Path.

















End PathFacts.

(** ** The task *)

Section EngineFacts.

Context {W : Type}.
Variable selector : string -> Js.Error + IngestClass W.
Implicit Types (ing : Ingest W) (st : St W) (gs rs : list Granule).

Lemma call_ingest_eq ing g bucket st :
  call_ingest ing g bucket st =
  ({| world := (ingest ing g bucket (world st)).1;
      trace := trace st ++ [ActIngest g bucket] |},
   (ingest ing g bucket (world st)).2).
Proof.
  unfold call_ingest. simpl. destruct (ingest ing g bucket (world st)).
  reflexivity.
Qed.

(** The loop handles the granules from left to right; when it resolves,
    every granule was ingested from the world its predecessor left and
    its result pushed behind the earlier ones. *)
Lemma download_loop_resolved ing bucket gs : forall acc st st' out,
  download_loop ing bucket gs acc st = (st', Resolved out) ->
  exists rs,
    out = acc ++ rs /\
    ingested ing bucket (world st) gs rs (world st') /\
    trace st' = trace st ++ map (fun g => ActIngest g bucket) gs.
Proof.
  induction gs as [|g gs IH]; intros acc st st' out H; simpl in H.
  - inversion H; subst. exists []. rewrite !app_nil_r.
    repeat split. constructor.
  - unfold bind, catch in H. rewrite call_ingest_eq in H.
    destruct (ingest ing g bucket (world st)) as [w1 [r|e]] eqn:E;
      simpl in H; [|discriminate].
    apply IH in H as (rs & -> & Hch & Htr). simpl in *.
    exists (r :: rs). repeat split.
    + rewrite <- app_assoc. reflexivity.
    + econstructor; eassumption.
    + rewrite Htr, <- app_assoc. reflexivity.
Qed.

Lemma download_loop_ingested ing bucket gs : forall acc st rs w',
  ingested ing bucket (world st) gs rs w' ->
  download_loop ing bucket gs acc st =
  ({| world := w';
      trace := trace st ++ map (fun g => ActIngest g bucket) gs |},
   Resolved (acc ++ rs)).
Proof.
  induction gs as [|g gs IH]; intros acc st rs w' H; inversion H; subst; simpl.
  - rewrite !app_nil_r. destruct st; reflexivity.
  - unfold bind, catch. rewrite call_ingest_eq.
    match goal with E : ingest _ _ _ _ = _ |- _ => rewrite E end. simpl.
    erewrite IH by (simpl; eassumption). simpl.
    rewrite <- !app_assoc. reflexivity.
Qed.

(** When the loop rejects, some granule's ingest rejected with that very
    error, after all granules before it had been ingested. *)
Lemma download_loop_rejected ing bucket gs : forall acc st st' e,
  download_loop ing bucket gs acc st = (st', Rejected e) ->
  exists pre g post rs w,
    gs = pre ++ g :: post /\
    ingested ing bucket (world st) pre rs w /\
    ingest ing g bucket w = (world st', Rejected e) /\
    trace st' = trace st ++ map (fun g => ActIngest g bucket) (pre ++ [g]).
Proof.
  induction gs as [|g gs IH]; intros acc st st' e H; simpl in H.
  - discriminate.
  - unfold bind, catch in H. rewrite call_ingest_eq in H.
    destruct (ingest ing g bucket (world st)) as [w1 [r|e1]] eqn:E;
      simpl in H.
    + apply IH in H as (pre & g' & post & rs & w & -> & Hch & Hg & Htr).
      simpl in *. exists (g :: pre), g', post, (r :: rs), w.
      repeat split; try assumption.
      * econstructor; eassumption.
      * rewrite Htr, <- app_assoc. reflexivity.
    + unfold throw in H. inversion H; subst. simpl.
      exists [], g, gs, [], (world st). repeat split.
      * constructor.
      * exact E.
Qed.

Lemma ingested_length ing bucket w gs rs w' :
  ingested ing bucket w gs rs w' -> length rs = length gs.
Proof. induction 1; simpl; congruence. Qed.

Lemma download_eq ing bucket prov gs st :
  download ing bucket prov gs st =
  match download_loop ing bucket gs [] st with
  | (st', Resolved out) =>
      match gs with
      | [] => (st', Rejected (Js.TypeError "Cannot read property 'granuleId' of undefined"))
      | _ :: _ => (st', Resolved out)
      end
  | (st', Rejected e) => (st', Rejected e)
  end.
Proof.
  unfold download, bind. simpl.
  destruct (download_loop ing bucket gs [] st) as [st' [out|e]];
    [destruct gs|]; reflexivity.
Qed.

(** C10: when [download] resolves, the granules were ingested one at a
    time in list order, each from the world the one before it left, and
    the result holds exactly one record per input granule in that order. *)
Theorem download_sequential_in_order ing bucket prov gs st st' out :
  download ing bucket prov gs st = (st', Resolved out) ->
  ingested ing bucket (world st) gs out (world st') /\
  length out = length gs /\
  trace st' = trace st ++ map (fun g => ActIngest g bucket) gs.
Proof.
  rewrite download_eq.
  destruct (download_loop ing bucket gs [] st) as [st1 [o|e]] eqn:E;
    [|discriminate].
  destruct gs as [|g gs']; [discriminate|]. intros H; inversion H; subst.
  apply download_loop_resolved in E as (rs & -> & Hch & Htr). simpl.
  split; [exact Hch|]. split; [|exact Htr].
  exact (ingested_length _ _ _ _ _ _ Hch).
Qed.

(** The converse: a non-empty list whose granules all ingest does make
    [download] resolve, with the results in order. *)
Lemma download_resolves ing bucket prov gs st rs w' :
  gs <> [] ->
  ingested ing bucket (world st) gs rs w' ->
  download ing bucket prov gs st =
  ({| world := w';
      trace := trace st ++ map (fun g => ActIngest g bucket) gs |},
   Resolved rs).
Proof.
  intros Hne H. rewrite download_eq.
  rewrite (download_loop_ingested ing bucket gs [] st rs w' H).
  destruct gs; [congruence | reflexivity].
Qed.

(** The closing log line of [download] reads the id of the first
    granule, so an empty list is rejected after the loop. *)
Lemma download_empty ing bucket prov st :
  download ing bucket prov [] st =
  (st, Rejected (Js.TypeError "Cannot read property 'granuleId' of undefined")).
Proof. reflexivity. Qed.

(** *** Counting the calls of the adapter *)



(** [download] only ever calls [ingest.ingest]: it leaves a log of
    ingest calls on a prefix of the granules, nothing else. *)
Lemma download_trace ing bucket prov gs st :
  exists done_,
    trace (download ing bucket prov gs st).1 =
    trace st ++ map (fun g => ActIngest g bucket) done_.
Proof.
  rewrite download_eq.
  destruct (download_loop ing bucket gs [] st) as [st1 [o|e]] eqn:E.
  - apply download_loop_resolved in E as (rs & _ & _ & Htr).
    exists gs. destruct gs; exact Htr.
  - apply download_loop_rejected in E as (pre & g & post & rs & w & _ & _ & _ & Htr).
    exists (pre ++ [g]). exact Htr.
Qed.

Lemma call_end_eq ing st :
  call_end ing st =
  match end_ ing with
  | None => (st, Resolved tt)
  | Some f =>
      ({| world := (f (world st)).1; trace := trace st ++ [ActEnd] |},
       match (f (world st)).2 with
       | None => Resolved tt
       | Some e => Rejected e
       end)
  end.
Proof.
  unfold call_end. destruct (end_ ing) as [f|]; [|reflexivity].
  simpl. destruct (f (world st)). reflexivity.
Qed.

(** Returning or throwing, [if (ingest.end) ingest.end()] logs one
    teardown when the class defines it and none when it does not. *)
Lemma call_end_trace ing st :
  trace (call_end ing st).1 = trace st ++ replicate (ends_expected ing) ActEnd.
Proof.
  rewrite call_end_eq. unfold ends_expected.
  destruct (end_ ing) as [f|]; simpl; [reflexivity|].
  rewrite app_nil_r. reflexivity.
Qed.

(** A teardown that keeps its contract returns. *)
Lemma call_end_returns ing st :
  end_returns ing ->
  exists st',
    call_end ing st = (st', Resolved tt) /\
    trace st' = trace st ++ replicate (ends_expected ing) ActEnd.
Proof.
  intros Hsafe. exists (call_end ing st).1. split; [|apply call_end_trace].
  rewrite call_end_eq. unfold end_returns in Hsafe.
  destruct (end_ ing) as [f|]; [|reflexivity].
  rewrite (Hsafe f (world st) eq_refl). reflexivity.
Qed.

(** *** [syncGranule] *)

(** With a provider whose protocol has a class, [syncGranule] constructs
    the adapter, runs [download] and settles in one of its two handlers. *)
Lemma syncGranule_eq event prov cls st :
  provider (meta event) = Some prov ->
  selector (protocol prov) = inr cls ->
  syncGranule selector event st =
  let args := ctor_args event prov in
  let ing := cls args in
  match download ing (bucket_name (private (buckets (meta event)))) prov
          (granules (payload event)) (record (ActNew args) st) with
  | (st2, Resolved gs) =>
      match call_end ing st2 with
      | (st3, Resolved _) =>
          (st3, Promise (Resolved (output_of (collection (meta event)) gs)))
      | (st3, Rejected e) =>
          match call_end ing st3 with
          | (st4, Resolved _) => (st4, Promise (Rejected (errorToThrow e)))
          | (st4, Rejected e') => (st4, Promise (Rejected e'))
          end
      end
  | (st2, Rejected e) =>
      match call_end ing st2 with
      | (st3, Resolved _) => (st3, Promise (Rejected (errorToThrow e)))
      | (st3, Rejected e') => (st3, Promise (Rejected e'))
      end
  end.
Proof.
  intros Hp Hs. unfold syncGranule. rewrite Hp, Hs. simpl.
  unfold catch, bind, on_resolved, on_rejected, bind, ret, throw.
  destruct (download _ _ _ _ _) as [st2 [gs|e]].
  - destruct (call_end _ st2) as [st3 [u|e]]; [reflexivity|].
    destruct (call_end _ st3) as [st4 [u|e']]; reflexivity.
  - destruct (call_end _ st2) as [st3 [u|e']]; reflexivity.
Qed.



(** On the rejection path the teardown is logged once even when it
    throws: the [catch] handler is the last one. *)
Lemma teardown_once_on_rejection event prov cls st st2 e :
  provider (meta event) = Some prov ->
  selector (protocol prov) = inr cls ->
  download (cls (ctor_args event prov))
    (bucket_name (private (buckets (meta event)))) prov
    (granules (payload event)) (record (ActNew (ctor_args event prov)) st)
  = (st2, Rejected e) ->
  trace (syncGranule selector event st).1
  = trace st2 ++ replicate (ends_expected (cls (ctor_args event prov))) ActEnd.
Proof.
  intros Hp Hs Hd.
  rewrite (syncGranule_eq event prov cls st Hp Hs). cbv zeta. rewrite Hd.
  rewrite <- call_end_trace.
  destruct (call_end _ st2) as [st3 [u|e']]; reflexivity.
Qed.

(** The adapter is constructed first, with the arguments [ctor_args]. *)
Lemma syncGranule_constructs event prov cls st :
  provider (meta event) = Some prov ->
  selector (protocol prov) = inr cls ->
  exists tr,
    trace (syncGranule selector event st).1
    = trace st ++ ActNew (ctor_args event prov) :: tr.
Proof.
  intros Hp Hs.
  rewrite (syncGranule_eq event prov cls st Hp Hs). cbv zeta.
  set (ing := cls (ctor_args event prov)).
  set (b := bucket_name (private (buckets (meta event)))).
  set (st1 := record (ActNew (ctor_args event prov)) st).
  destruct (download_trace ing b prov (granules (payload event)) st1)
    as [done_ Htr].
  destruct (download ing b prov (granules (payload event)) st1) as [st2 o].
  simpl in Htr.
  assert (H2 : forall s, exists tr, trace (call_end ing s).1 = trace s ++ tr)
    by (intros s; rewrite call_end_trace; eauto).
  assert (Hst2 : exists tr, trace st2 = trace st ++ ActNew (ctor_args event prov) :: tr).
  { rewrite Htr. subst st1. simpl. rewrite <- app_assoc. eauto. }
  destruct Hst2 as [tr2 Htr2].
  destruct (H2 st2) as [tr3 Htr3].
  destruct (call_end ing st2) as [st3 [u|e3]] eqn:E3; simpl in Htr3.
  - destruct o; simpl; rewrite Htr3, Htr2, <- app_assoc; simpl; eauto.
  - destruct (H2 st3) as [tr4 Htr4].
    destruct o as [gs|e].
    + destruct (call_end ing st3) as [st4 [u|e4]]; simpl in *;
        rewrite Htr4, Htr3, Htr2, <- !app_assoc; simpl; eauto.
    + simpl. rewrite Htr3, Htr2, <- app_assoc. simpl. eauto.
Qed.

(** When the collection is absent or names no mode, the mode among the
    constructor's arguments is [null]. *)
Lemma ctor_mode_unspecified event prov :
  match collection (meta event) with
  | Some c => duplicateHandling c = None
  | None => True
  end ->
  ctor_duplicateHandling (ctor_args event prov) = None.
Proof.
  intros H. simpl. unfold resolve_duplicateHandling.
  destruct (collection (meta event)) as [c|]; [|reflexivity].
  rewrite H. reflexivity.
Qed.

(** A typed event without a provider is rejected with ProviderNotFound,
    and the state the call leaves is the state it found. *)
Lemma no_provider_rejects event st :
  provider (meta event) = None ->
  syncGranule selector event st =
  (st, Promise (Rejected (Js.ProviderNotFound "Provider info not provided"))).
Proof. intros Hp. unfold syncGranule. rewrite Hp. reflexivity. Qed.

(** The mode handed to the adapter's constructor is [null] whenever the
    collection is absent or names no mode. *)
Lemma resolve_duplicateHandling_unspecified coll :
  match coll with
  | Some c => duplicateHandling c = None
  | None => True
  end ->
  resolve_duplicateHandling coll = None.
Proof.
  unfold resolve_duplicateHandling. destruct coll as [c|]; [|reflexivity].
  intros ->. reflexivity.
Qed.

Lemma resolve_duplicateHandling_specified c mode :
  duplicateHandling c = Some mode -> mode <> "" ->
  resolve_duplicateHandling (Some c) = Some mode.
Proof.
  intros H Hne. unfold resolve_duplicateHandling. rewrite H. simpl.
  apply String.eqb_neq in Hne. rewrite Hne. reflexivity.
Qed.

(** The handlers' error mapping, case by case. *)
Lemma errorToThrow_cases e :
  (Js.includes (Js.toString e) "ECONNREFUSED" = true ->
   errorToThrow e = Js.RemoteResourceError "Connection Refused") /\
  (Js.includes (Js.toString e) "ECONNREFUSED" = false ->
   Js.status_is_timeout e = true ->
   errorToThrow e = Js.ConnectionTimeout "connection Timed out") /\
  (Js.includes (Js.toString e) "ECONNREFUSED" = false ->
   Js.status_is_timeout e = false ->
   errorToThrow e = e).
Proof.
  unfold errorToThrow.
  repeat split; intros; repeat match goal with H : _ = _ |- _ => rewrite H end;
    reflexivity.
Qed.

(** C6, amended: an error with which [download] rejects is thrown again
    by [syncGranule] as RemoteResourceError when its string form contains
    ECONNREFUSED; as ConnectionTimeout when it does not and its
    [details.status] is "timeout"; unchanged in every other case. *)
Theorem rejection_mapping event prov cls st st2 e :
  provider (meta event) = Some prov ->
  selector (protocol prov) = inr cls ->
  end_returns (cls (ctor_args event prov)) ->
  download (cls (ctor_args event prov))
    (bucket_name (private (buckets (meta event)))) prov
    (granules (payload event)) (record (ActNew (ctor_args event prov)) st)
  = (st2, Rejected e) ->
  (syncGranule selector event st).2 = Promise (Rejected (errorToThrow e)) /\
  (Js.includes (Js.toString e) "ECONNREFUSED" = true ->
   errorToThrow e = Js.RemoteResourceError "Connection Refused") /\
  (Js.includes (Js.toString e) "ECONNREFUSED" = false ->
   Js.status_is_timeout e = true ->
   errorToThrow e = Js.ConnectionTimeout "connection Timed out") /\
  (Js.includes (Js.toString e) "ECONNREFUSED" = false ->
   Js.status_is_timeout e = false ->
   errorToThrow e = e).
Proof.
  intros Hp Hs Hsafe Hd. split; [|apply errorToThrow_cases].
  rewrite (syncGranule_eq event prov cls st Hp Hs). cbv zeta. rewrite Hd.
  destruct (call_end_returns _ st2 Hsafe) as (st3 & -> & _). reflexivity.
Qed.

(** *** [download] and the lock, [download] and partial progress *)

Lemma download_loop_stops ing bucket pre : forall g post rs w w' e acc st,
  ingested ing bucket (world st) pre rs w ->
  ingest ing g bucket w = (w', Rejected e) ->
  download_loop ing bucket (pre ++ g :: post) acc st =
  ({| world := w';
      trace := trace st ++ map (fun g => ActIngest g bucket) (pre ++ [g]) |},
   Rejected e).
Proof.
  induction pre as [|p pre IH]; intros g post rs w w' e acc st Hch Hg;
    inversion Hch; subst; simpl.
  - unfold bind, catch. rewrite call_ingest_eq, Hg. reflexivity.
  - unfold bind, catch. rewrite call_ingest_eq.
    match goal with E : ingest _ p _ _ = _ |- _ => rewrite E end. simpl.
    erewrite IH by (simpl; eassumption). simpl.
    rewrite <- !app_assoc. reflexivity.
Qed.

(** C2, amended: [download] never consults the lock. Whatever the state
    of the world, locks included, it hands the first granule to
    [ingest.ingest] at once; and when it rejects on a non-empty list, the
    error is one that [ingest.ingest] raised for a granule of the list
    after the granules before it were ingested, never a
    ResourcesLockedError of its own making. *)
Theorem download_ignores_lock ing bucket prov g gs st :
  (exists tr,
     trace (download ing bucket prov (g :: gs) st).1 =
     trace st ++ ActIngest g bucket :: tr) /\
  (forall e,
     (download ing bucket prov (g :: gs) st).2 = Rejected e ->
     exists pre g' post rs w,
       g :: gs = pre ++ g' :: post /\
       ingested ing bucket (world st) pre rs w /\
       ingest ing g' bucket w =
       (world (download ing bucket prov (g :: gs) st).1, Rejected e)).
Proof.
  rewrite download_eq.
  destruct (download_loop ing bucket (g :: gs) [] st) as [st1 [o|e1]] eqn:E.
  - split; [|discriminate].
    apply download_loop_resolved in E as (rs & _ & _ & Htr).
    eexists. exact Htr.
  - apply download_loop_rejected in E
      as (pre & g' & post & rs & w & Hgs & Hch & Hg & Htr).
    split.
    + simpl. rewrite Htr. destruct pre as [|p pre]; simpl in Hgs;
        inversion Hgs; subst; simpl; eexists; reflexivity.
    + intros e [= <-]. exists pre, g', post, rs, w. auto.
Qed.

(** C4, amended: when the ingest of a granule fails, [download] throws
    that error again exactly as [ingest.ingest] raised it; the records of
    the granules ingested before it are dropped, and what those ingests
    did to the world stays done. *)
Theorem download_rethrows_unchanged ing bucket prov pre g post rs w w' e st :
  ingested ing bucket (world st) pre rs w ->
  ingest ing g bucket w = (w', Rejected e) ->
  download ing bucket prov (pre ++ g :: post) st =
  ({| world := w';
      trace := trace st ++ map (fun g => ActIngest g bucket) (pre ++ [g]) |},
   Rejected e).
Proof.
  intros Hch Hg. rewrite download_eq.
  rewrite (download_loop_stops ing bucket pre g post rs w w' e [] st Hch Hg).
  reflexivity.
Qed.

End EngineFacts.

(** *** Runs against the bench provider *)

(** C10, on a run: three granules come back as three records in order. *)
Lemma download_sequential_in_order_witness :
  let ing := Bench.s3_adapter (ctor_args (Bench.event None None []) (Bench.the_provider "s3")) in
  let gs := map Bench.granule ["G1"; "G2"; "G3"] in
  let st' := (download ing "stack-private" (Bench.the_provider "s3") gs (Bench.start ∅)).1 in
  ingested ing "stack-private" (world (Bench.start ∅)) gs gs (world st') /\
  length gs = length gs /\
  trace st' = trace (Bench.start ∅) ++ map (fun g => ActIngest g "stack-private") gs.
Proof.
  intros ing gs st'.
  apply (download_sequential_in_order ing "stack-private" (Bench.the_provider "s3")
           gs (Bench.start ∅) st' gs).
  reflexivity.
Defined.

(** C1, at an input: a collection that names no duplicate handling makes
    [syncGranule] construct its adapter with [null] for the mode, not
    with "error". *)
Theorem default_mode_is_null :
  let ev := Bench.event (Some (Bench.the_provider "s3"))
              (Some (Bench.the_collection None)) ["G1"] in
  map ctor_duplicateHandling
    (constructed (trace (syncGranule Bench.selector ev (Bench.start ∅)).1))
  = [None] /\
  (None : option string) <> Some "error".
Proof. split; [reflexivity | discriminate]. Qed.

(** C2 fails as stated: with the lock on (prov, G1) held by another
    caller beyond the whole wait, so that acquiring it ends in
    ResourcesLockedError, [download] still resolves and G1 is staged. *)
Lemma download_lock_held_cex :
  Lock.acquire 5 1 60 0 1 Bench.lock_key Bench.held
  = inl (Js.ResourcesLockedError
           "Download lock remained in place after multiple tries") /\
  let r := download (Bench.s3_adapter (ctor_args (Bench.event None None []) (Bench.the_provider "s3")))
             "stack-private" (Bench.the_provider "s3") [Bench.granule "G1"]
             (Bench.start Bench.held) in
  r.2 = Resolved [Bench.granule "G1"] /\
  count is_ingest (trace r.1) = 1 /\
  Bench.staged (world r.1) = ["G1"] /\
  Bench.locks (world r.1) = Bench.held.
Proof. repeat split; vm_compute; reflexivity. Qed.

(** C4 fails as stated: two runs that ingested different granules before
    the failure throw the same error, so the error does not tell which
    granules were ingested. *)
Lemma partial_progress_lost_cex :
  let run ids :=
    download (Bench.s3_adapter (ctor_args (Bench.event None None []) (Bench.the_provider "s3")))
      "stack-private" (Bench.the_provider "s3") (map Bench.granule ids)
      (Bench.start ∅) in
  (run ["G1"; "MISSING"]).2 = Rejected Bench.not_found /\
  (run ["G2"; "MISSING"]).2 = Rejected Bench.not_found /\
  Bench.staged (world (run ["G1"; "MISSING"]).1) = ["G1"] /\
  Bench.staged (world (run ["G2"; "MISSING"]).1) = ["G2"] /\
  ["G1"] <> ["G2"].
Proof. repeat split; try reflexivity. discriminate. Qed.

(** No function of the thrown error recovers the granules ingested
    before the failure. *)
Lemma partial_progress_not_recoverable :
  ~ exists recover : Js.Error -> list string,
      forall ids st' e,
        download (Bench.s3_adapter (ctor_args (Bench.event None None []) (Bench.the_provider "s3")))
          "stack-private" (Bench.the_provider "s3") (map Bench.granule ids)
          (Bench.start ∅) = (st', Rejected e) ->
        recover e = Bench.staged (world st').
Proof.
  intros [recover H].
  pose proof (H ["G1"; "MISSING"] _ _ eq_refl) as H1.
  pose proof (H ["G2"; "MISSING"] _ _ eq_refl) as H2.
  simpl in H1, H2. rewrite H1 in H2. discriminate.
Qed.

(** C4 amended, on a run: G1 is staged, MISSING fails, and the error
    thrown is the adapter's own. *)
Lemma download_rethrows_unchanged_witness :
  let ing := Bench.s3_adapter (ctor_args (Bench.event None None []) (Bench.the_provider "s3")) in
  let st := Bench.start ∅ in
  download ing "stack-private" (Bench.the_provider "s3")
    ([Bench.granule "G1"] ++ Bench.granule "MISSING" :: [Bench.granule "G3"]) st =
  ({| world := Bench.stage "G1" (world st);
      trace := trace st ++ map (fun g => ActIngest g "stack-private")
                             ([Bench.granule "G1"] ++ [Bench.granule "MISSING"]) |},
   Rejected Bench.not_found).
Proof.
  intros ing st.
  apply (download_rethrows_unchanged ing "stack-private" (Bench.the_provider "s3")
           [Bench.granule "G1"] (Bench.granule "MISSING") [Bench.granule "G3"]
           [Bench.granule "G1"] (Bench.stage "G1" (world st))
           (Bench.stage "G1" (world st)) Bench.not_found st).
  - econstructor; [reflexivity | constructor].
  - reflexivity.
Defined.



(** C6 fails as stated: an error whose [details.status] is "timeout" and
    whose string form contains ECONNREFUSED is thrown again as
    RemoteResourceError, not as ConnectionTimeout. *)
Lemma timeout_with_refusal_cex :
  let ev := Bench.event (Some (Bench.the_provider "ftp")) None ["G1"] in
  Js.status_is_timeout Bench.refused_and_timed_out = true /\
  (download (Bench.ftp_adapter (ctor_args ev (Bench.the_provider "ftp")))
     "stack-private" (Bench.the_provider "ftp") (granules (payload ev))
     (record (ActNew (ctor_args ev (Bench.the_provider "ftp"))) (Bench.start ∅))).2
  = Rejected Bench.refused_and_timed_out /\
  (syncGranule Bench.selector ev (Bench.start ∅)).2
  = Promise (Rejected (Js.RemoteResourceError "Connection Refused")) /\
  Js.RemoteResourceError "Connection Refused"
  <> Js.ConnectionTimeout "connection Timed out".
Proof. repeat split; try reflexivity. discriminate. Qed.

(** C6 amended, on a run: a missing file is neither a refusal nor a
    timeout and comes back unchanged. *)
Lemma rejection_mapping_witness :
  let ev := Bench.event (Some (Bench.the_provider "s3")) None ["MISSING"] in
  (syncGranule Bench.selector ev (Bench.start ∅)).2
  = Promise (Rejected (errorToThrow Bench.not_found)) /\
  errorToThrow Bench.not_found = Bench.not_found.
Proof.
  intros ev.
  destruct (rejection_mapping Bench.selector ev (Bench.the_provider "s3")
              Bench.s3_adapter (Bench.start ∅)
              (record (ActIngest (Bench.granule "MISSING") "stack-private")
                 (record (ActNew (ctor_args ev (Bench.the_provider "s3"))) (Bench.start ∅)))
              Bench.not_found)
    as (H1 & _ & _ & H4);
    [reflexivity | reflexivity | intros f w [= <-]; reflexivity | reflexivity |].
  split; [exact H1 | apply H4; reflexivity].
Defined.

(** ** The staging key *)







(** ** The duplicate policy under [skip] *)

Module PolicyFacts.
Import Policy.

Lemma evaluate_skip ex incoming :
  evaluate (Some ex) incoming ModeSkip = SkipKeepExisting.
Proof. reflexivity. Qed.

(** An identical file is never rejected, under any mode. *)
Lemma evaluate_identical_not_rejected ex incoming mode e :
  identical ex incoming = true ->
  evaluate (Some ex) incoming mode <> Reject e.
Proof. intros H. destruct mode; simpl; rewrite ?H; discriminate. Qed.

(** C8: when the destination object exists with another checksum and the
    mode is [skip], staging the file succeeds, the store after the call is
    the store before it (the object is not overwritten and no copy of the
    incoming file appears under any key), and the output record is
    flagged [duplicate_found]. *)
Theorem skip_keeps_existing disambiguate (store : Store) key ex incoming :
  store !! key = Some ex ->
  checksum ex <> checksum incoming ->
  exists r,
    stageFile disambiguate store key incoming ModeSkip = inr (store, r) /\
    rec_duplicate_found r = true /\
    rec_key r = key /\
    store !! key = Some ex.
Proof.
  intros Hex _. unfold stageFile. rewrite Hex. simpl.
  eexists. repeat split.
Qed.

End PolicyFacts.

(** C8, on a store holding one staged file. *)
Lemma skip_keeps_existing_witness :
  let old := {| Policy.bytes := "old bytes"; Policy.size := 9;
                Policy.checksum := Some "1435712144" |} in
  let new := {| Policy.bytes := "random"; Policy.size := 6;
                Policy.checksum := Some "2208980624" |} in
  let key := "file-staging/my-stack/MOD09GQ/f.hdf" in
  let store : gmap string Policy.Object := {[ key := old ]} in
  exists r,
    Policy.stageFile (fun _ k => k +:+ ".v1") store key new Policy.ModeSkip
    = inr (store, r) /\
    Policy.rec_duplicate_found r = true /\
    Policy.rec_key r = key /\
    store !! key = Some old.
Proof.
  intros old new key store.
  apply (PolicyFacts.skip_keeps_existing (fun _ k => k +:+ ".v1") store key old new).
  - apply lookup_singleton_eq.
  - discriminate.
Defined.

(** ** The lock table *)

Module LockFacts.
Import Lock.

Lemma run_app (ttl : nat) (tbl : gmap Key Entry) (a b : list Call) :
  run ttl tbl (a ++ b) =
  ((run ttl (run ttl tbl a).1 b).1,
   (run ttl tbl a).2 ++ (run ttl (run ttl tbl a).1 b).2).
Proof.
  revert tbl. induction a as [|c a IH]; intros tbl; simpl.
  - destruct (run ttl tbl b). reflexivity.
  - destruct (step ttl tbl c) as [tbl1 r]. rewrite IH.
    destruct (run ttl tbl1 a) as [tbl2 rs]. simpl.
    destruct (run ttl tbl2 b). reflexivity.
Qed.

Lemma run_length (ttl : nat) (tbl : gmap Key Entry) (calls : list Call) :
  length (run ttl tbl calls).2 = length calls.
Proof.
  revert tbl. induction calls as [|c calls IH]; intros tbl; simpl; [reflexivity|].
  destruct (step ttl tbl c) as [tbl1 r]. specialize (IH tbl1).
  destruct (run ttl tbl1 calls). simpl in *. congruence.
Qed.

Lemma run_cons (ttl : nat) (tbl : gmap Key Entry) (c : Call) (rest : list Call) :
  run ttl tbl (c :: rest) =
  ((run ttl (step ttl tbl c).1 rest).1,
   (step ttl tbl c).2 :: (run ttl (step ttl tbl c).1 rest).2).
Proof.
  simpl. destruct (step ttl tbl c) as [tbl1 r]. simpl.
  destruct (run ttl tbl1 rest). reflexivity.
Qed.

(** The reply to the call that comes after [pre]. *)
Lemma run_reply_at (ttl : nat) (tbl : gmap Key Entry) (pre : list Call) (c : Call) (post : list Call) :
  (run ttl tbl (pre ++ c :: post)).2 !! length pre
  = Some (step ttl (run ttl tbl pre).1 c).2.
Proof.
  rewrite run_app, run_cons. cbn [snd].
  rewrite lookup_app_r by (rewrite run_length; lia).
  rewrite run_length, Nat.sub_diag. reflexivity.
Qed.

(** A granted acquisition leaves its token in the table. *)
Lemma try_acquire_granted (ttl now who : nat) (k : Key) (tbl : gmap Key Entry) (tok : Entry) (tbl' : gmap Key Entry) :
  try_acquire ttl now who k tbl = Some (tok, tbl') ->
  tbl' !! k = Some tok /\ expiry tok = now + ttl /\ holder tok = who.
Proof.
  unfold try_acquire. intros H.
  destruct (tbl !! k) as [e|]; [destruct (decide (now < expiry e))|];
    inversion H; subst; rewrite lookup_insert_eq; auto.
Qed.

(** While an entry is unexpired, nobody else is granted its key. *)
Lemma try_acquire_denied (ttl now who : nat) (k : Key) (tbl : gmap Key Entry) (tok : Entry) :
  tbl !! k = Some tok -> now < expiry tok ->
  try_acquire ttl now who k tbl = None.
Proof.
  intros Hk Hlt. unfold try_acquire. rewrite Hk.
  rewrite decide_True by exact Hlt. reflexivity.
Qed.

(** One call leaves an unexpired entry in place unless it is the release
    of that very token. *)
Lemma step_keeps_entry (ttl : nat) (tbl : gmap Key Entry) (c : Call) (k : Key) (tok : Entry) :
  tbl !! k = Some tok ->
  at_time c < expiry tok ->
  op c <> Release k tok ->
  (step ttl tbl c).1 !! k = Some tok.
Proof.
  intros Hk Hlt Hrel. unfold step.
  destruct (op c) as [who k'|k' tok'] eqn:Hop.
  - destruct (decide (k' = k)) as [->|Hne].
    + rewrite (try_acquire_denied ttl (at_time c) who k tbl tok Hk Hlt). exact Hk.
    + unfold try_acquire.
      destruct (tbl !! k') as [e|]; [destruct (decide (at_time c < expiry e))|];
        simpl; rewrite ?lookup_insert_ne by exact Hne; exact Hk.
  - simpl. unfold release.
    destruct (decide (k' = k)) as [->|Hne].
    + rewrite Hk. destruct (decide (tok = tok')) as [<-|Hd]; [congruence | exact Hk].
    + destruct (tbl !! k') as [e|]; [destruct (decide (e = tok'))|];
        rewrite ?lookup_delete_ne by exact Hne; exact Hk.
Qed.

Lemma run_keeps_entry (ttl : nat) (calls : list Call) :
  forall (tbl : gmap Key Entry) (k : Key) (tok : Entry),
  tbl !! k = Some tok ->
  Forall (fun c => at_time c < expiry tok) calls ->
  Forall (fun c => op c <> Release k tok) calls ->
  (run ttl tbl calls).1 !! k = Some tok.
Proof.
  induction calls as [|c calls IH]; intros tbl k tok Hk Ht Hr; [exact Hk|].
  rewrite run_cons. simpl.
  inversion Ht; inversion Hr; subst.
  apply IH; [|assumption|assumption].
  apply step_keeps_entry; assumption.
Qed.

Lemma clock_ok_lower t calls :
  clock_ok t calls -> Forall (fun c => t <= at_time c) calls.
Proof.
  revert t. induction calls as [|c calls IH]; intros t H; [constructor|].
  destruct H as [Hc Hrest]. constructor; [exact Hc|].
  eapply Forall_impl; [apply IH, Hrest|]. simpl. intros x Hx. lia.
Qed.

Lemma clock_ok_before t a c b :
  clock_ok t (a ++ c :: b) -> Forall (fun x => at_time x <= at_time c) a.
Proof.
  revert t. induction a as [|x a IH]; intros t H; [constructor|].
  destruct H as [_ Hrest]. constructor; [|exact (IH _ Hrest)].
  apply clock_ok_lower in Hrest.
  rewrite Forall_app, Forall_cons in Hrest. tauto.
Qed.

Lemma clock_ok_drop t a b :
  clock_ok t (a ++ b) -> exists t', clock_ok t' b.
Proof.
  revert t. induction a as [|x a IH]; intros t H; [eauto|].
  destruct H as [_ Hrest]. exact (IH _ Hrest).
Qed.

(** C9: at most one holder. Let the table serve any sequence of
    conditional writes by any callers, the clock never running backwards.
    If two acquisitions of the same key are both granted, then the token
    of the earlier one was released in between, or it had expired when
    the later one was granted. *)
Theorem at_most_one_holder (ttl t0 : nat) (tbl : gmap Key Entry)
    (pre : list Call) (c1 : Call) (mid : list Call) (c2 : Call)
    (post : list Call) (a b : nat) (k : Key) (tok1 tok2 : Entry) :
  clock_ok t0 (pre ++ c1 :: mid ++ c2 :: post) ->
  op c1 = TryAcquire a k ->
  op c2 = TryAcquire b k ->
  (run ttl tbl (pre ++ c1 :: mid ++ c2 :: post)).2 !! length pre
  = Some (Granted tok1) ->
  (run ttl tbl (pre ++ c1 :: mid ++ c2 :: post)).2 !! (length pre + 1 + length mid)
  = Some (Granted tok2) ->
  Exists (fun c => op c = Release k tok1) mid \/ expiry tok1 <= at_time c2.
Proof.
  intros Hclock Hop1 Hop2 Hg1 Hg2.
  destruct (decide (Exists (fun c => op c = Release k tok1) mid)) as [|Hnone];
    [left; assumption|].
  destruct (decide (expiry tok1 <= at_time c2)) as [|Hlive];
    [right; assumption|].
  exfalso. apply not_Exists_Forall in Hnone; [|intros c; apply _].
  assert (Hmid : Forall (fun c => at_time c < expiry tok1) mid).
  { destruct (clock_ok_drop t0 (pre ++ [c1]) (mid ++ c2 :: post))
      as [t' Ht'].
    { rewrite <- app_assoc. exact Hclock. }
    apply clock_ok_before in Ht'.
    eapply Forall_impl; [exact Ht'|]. simpl. intros x Hx. lia. }
  rewrite run_reply_at in Hg1.
  set (tbl0 := (run ttl tbl pre).1) in *.
  assert (Hk1 : (step ttl tbl0 c1).1 !! k = Some tok1).
  { unfold step in *. rewrite Hop1 in *.
    destruct (try_acquire ttl (at_time c1) a k tbl0) as [[tok tbl']|] eqn:E;
      simpl in *; [|discriminate].
    inversion Hg1; subst. apply (try_acquire_granted _ _ _ _ _ _ _ E). }
  replace (pre ++ c1 :: mid ++ c2 :: post)
    with ((pre ++ c1 :: mid) ++ c2 :: post) in Hg2
    by (rewrite <- app_assoc; reflexivity).
  replace (length pre + 1 + length mid) with (length (pre ++ c1 :: mid)) in Hg2
    by (rewrite length_app; simpl; lia).
  rewrite run_reply_at in Hg2.
  rewrite run_app, run_cons in Hg2. cbn [fst] in Hg2. fold tbl0 in Hg2.
  pose proof (run_keeps_entry ttl mid _ k tok1 Hk1 Hmid Hnone) as Hheld.
  set (tblm := (run ttl (step ttl tbl0 c1).1 mid).1) in *.
  unfold step in Hg2. rewrite Hop2 in Hg2.
  rewrite (try_acquire_denied ttl (at_time c2) b k tblm tok1 Hheld) in Hg2 by lia.
  discriminate.
Qed.

(** Released or expired, the key can be taken again: the coordinator
    does not wedge. *)
Lemma try_acquire_after_expiry (ttl now who : nat) (k : Key) (tbl : gmap Key Entry) (tok : Entry) :
  tbl !! k = Some tok -> expiry tok <= now ->
  exists tok' tbl', try_acquire ttl now who k tbl = Some (tok', tbl').
Proof.
  intros Hk Hle. unfold try_acquire. rewrite Hk.
  rewrite decide_False by lia. eauto.
Qed.

Lemma try_acquire_after_release (ttl now who : nat) (k : Key) (tbl : gmap Key Entry) (tok : Entry) :
  tbl !! k = Some tok ->
  exists tok' tbl', try_acquire ttl now who k (release k tok tbl) = Some (tok', tbl').
Proof.
  intros Hk. unfold release. rewrite Hk, decide_True by reflexivity.
  unfold try_acquire. rewrite lookup_delete_eq. eauto.
Qed.

End LockFacts.

(** C9, on a trace: caller 1 takes the lock at time 0 for 60, caller 2
    is refused at 10, caller 1 releases at 20 and caller 2 is granted
    at 21. *)
Lemma at_most_one_holder_witness :
  let k : Lock.Key := ("prov", "G1") in
  let tok1 := {| Lock.holder := 1; Lock.expiry := 60 |} in
  let c1 := {| Lock.at_time := 0; Lock.op := Lock.TryAcquire 1 k |} in
  let mid := [ {| Lock.at_time := 10; Lock.op := Lock.TryAcquire 2 k |};
               {| Lock.at_time := 20; Lock.op := Lock.Release k tok1 |} ] in
  let c2 := {| Lock.at_time := 21; Lock.op := Lock.TryAcquire 2 k |} in
  (Lock.run 60 ∅ ([] ++ c1 :: mid ++ c2 :: [])).2
  = [Lock.Granted tok1; Lock.Denied; Lock.Released;
     Lock.Granted {| Lock.holder := 2; Lock.expiry := 81 |}] /\
  (Exists (fun c => Lock.op c = Lock.Release k tok1) mid \/
   Lock.expiry tok1 <= Lock.at_time c2).
Proof.
  intros k tok1 c1 mid c2. split; [vm_compute; reflexivity|].
  apply (LockFacts.at_most_one_holder 60 0 ∅ [] c1 mid c2 [] 1 2 k tok1
           {| Lock.holder := 2; Lock.expiry := 81 |}).
  - simpl. lia.
  - reflexivity.
  - reflexivity.
  - vm_compute; reflexivity.
  - vm_compute; reflexivity.
Defined.

(** ** The event as it arrives: what is read before the provider check *)

Section RawFacts.

Context {W : Type}.

(** On a typed event and classes whose constructors do not throw, the
    statement-by-statement reading is the typed one. *)
Lemma syncGranule_raw_typed (selector : string -> Js.Error + IngestClass W)
    event st :
  syncGranule_raw (raw_of_selector selector) (raw_of_event event) st
  = syncGranule selector event st.
Proof.
  unfold syncGranule_raw, syncGranule, raw_of_event, raw_of_selector. simpl.
  destruct (provider (meta event)) as [prov|]; [|reflexivity].
  destruct (selector (protocol prov)) as [e|cls]; [reflexivity|].
  assert (Hargs : raw_ctor_args
            {| raw_stack := Some (stack (meta event));
               raw_buckets :=
                 Some {| raw_private := Some (private (buckets (meta event)));
                         raw_other_buckets := other_buckets (buckets (meta event)) |};
               raw_provider := Some prov;
               raw_collection := collection (meta event) |}
            {| raw_private := Some (private (buckets (meta event)));
               raw_other_buckets := other_buckets (buckets (meta event)) |}
            (private (buckets (meta event))) (stack (meta event)) prov
          = ctor_args event prov).
  { unfold raw_ctor_args, ctor_args. simpl.
    destruct (buckets (meta event)). reflexivity. }
  rewrite Hargs. reflexivity.
Qed.

Variable selector : string -> Js.Error + RawClass W.
Variable now : W -> Z.

(** C7, amended: an event without a provider whose meta carries a string
    [stack] and [buckets.private] is rejected with ProviderNotFound, and
    the state the call leaves is the state it found: no class is
    selected, no adapter constructed, no ingest attempted, and the world
    (network and staging area) is untouched; whatever the payload and
    the collection are. *)
Theorem no_provider_rejects_when_well_formed event m bs priv stk st :
  raw_meta event = Some m ->
  raw_buckets m = Some bs ->
  raw_private bs = Some priv ->
  raw_stack m = Some stk ->
  raw_provider m = None ->
  syncGranule_raw selector event st =
  (st, Promise (Rejected (Js.ProviderNotFound "Provider info not provided"))).
Proof.
  intros Hm Hb Hp Hs Hprov. unfold syncGranule_raw.
  rewrite Hm, Hb, Hp, Hs, Hprov. reflexivity.
Qed.

(** Without a provider and without one of those fields, the call throws
    a TypeError before it reaches the provider check. *)
Lemma no_provider_malformed_throws event st :
  (forall m, raw_meta event = Some m -> raw_provider m = None) ->
  (forall m bs priv stk,
     raw_meta event = Some m -> raw_buckets m = Some bs ->
     raw_private bs = Some priv -> raw_stack m = Some stk -> False) ->
  exists msg, syncGranule_raw selector event st = (st, Threw (Js.TypeError msg)).
Proof.
  intros Hprov Hbad. unfold syncGranule_raw, cannot_read.
  destruct (raw_meta event) as [m|]; [|eauto].
  destruct (raw_buckets m) as [bs|] eqn:Hb; [|eauto].
  destruct (raw_private bs) as [priv|] eqn:Hp; [|eauto].
  destruct (raw_stack m) as [stk|] eqn:Hs; [|eauto].
  exfalso. eapply Hbad; eauto.
Qed.

(** An event without a payload gets as far as the constructor: the
    adapter is constructed, [input.granules] throws, and no handler is
    ever chained, so the adapter is not torn down. *)
Lemma missing_payload_no_teardown event m bs priv stk prov cls ing st :
  raw_meta event = Some m ->
  raw_buckets m = Some bs ->
  raw_private bs = Some priv ->
  raw_stack m = Some stk ->
  raw_provider m = Some prov ->
  selector (protocol prov) = inr cls ->
  cls (raw_ctor_args m bs priv stk prov) = inr ing ->
  raw_payload event = None ->
  exists msg,
    syncGranule_raw selector event st
    = (record (ActNew (raw_ctor_args m bs priv stk prov)) st,
       Threw (Js.TypeError msg)).
Proof.
  intros Hm Hb Hp Hs Hprov Hsel Hcls Hpay. unfold syncGranule_raw.
  rewrite Hm, Hb, Hp, Hs, Hprov, Hsel, Hcls, Hpay. eexists. reflexivity.
Qed.

(** X4: the handler calls its callback exactly for the events that get
    [syncGranule] as far as a promise: the meta carries [buckets.private]
    and a string [stack], and either there is no provider, or the
    provider's class is found and constructed and the event has a
    payload. For every other event the exception leaves the handler and
    the callback is never called. *)
Theorem handler_calls_back_iff_promise event st :
  (exists c, (handler_raw selector now event st).2 = RawCalled c) <->
  (exists m bs priv stk,
     raw_meta event = Some m /\ raw_buckets m = Some bs /\
     raw_private bs = Some priv /\ raw_stack m = Some stk /\
     (raw_provider m = None \/
      exists prov cls ing,
        raw_provider m = Some prov /\
        selector (protocol prov) = inr cls /\
        cls (raw_ctor_args m bs priv stk prov) = inr ing /\
        is_Some (raw_payload event))).
Proof.
  unfold handler_raw, syncGranule_raw.
  destruct (raw_meta event) as [m|];
    [|split; [intros [c Hc]; discriminate | intros (m & ? & ? & ? & [=] & _)]].
  destruct (raw_buckets m) as [bs|] eqn:Hb;
    [|split; [intros [c Hc]; discriminate
             | intros (m' & ? & ? & ? & [= <-] & Hb' & _); congruence]].
  destruct (raw_private bs) as [priv|] eqn:Hp;
    [|split; [intros [c Hc]; discriminate
             | intros (m' & bs' & ? & ? & [= <-] & Hb' & Hp' & _); congruence]].
  destruct (raw_stack m) as [stk|] eqn:Hs;
    [|split; [intros [c Hc]; discriminate
             | intros (m' & ? & ? & ? & [= <-] & _ & _ & Hs' & _); congruence]].
  destruct (raw_provider m) as [prov|] eqn:Hprov.
  - destruct (selector (protocol prov)) as [e|cls] eqn:Hsel.
    { split; [intros [c Hc]; discriminate|].
      intros (m' & bs' & priv' & stk' & [= <-] & _ & _ & _ & [Hn|H]);
        [congruence|].
      destruct H as (prov' & cls' & ing & Hp' & Hsel' & _). congruence. }
    destruct (cls (raw_ctor_args m bs priv stk prov)) as [e|ing] eqn:Hcls.
    { split; [intros [c Hc]; discriminate|].
      intros (m' & bs' & priv' & stk' & [= <-] & Hb' & Hp'' & Hs' & [Hn|H]);
        [congruence|].
      destruct H as (prov' & cls' & ing & Hp' & Hsel' & Hcls' & _).
      congruence. }
    destruct (raw_payload event) as [p|] eqn:Hpay.
    + split.
      * intros _. exists m, bs, priv, stk. repeat split; try assumption.
        right. exists prov, cls, ing. repeat split; eauto.
      * intros _.
        match goal with |- context [catch ?m ?h ?s] =>
          destruct (catch m h s) as [st2 [o|e]] end; simpl; eauto.
    + split; [intros [c Hc]; discriminate|].
      intros (m' & bs' & priv' & stk' & [= <-] & _ & _ & _ & [Hn|H]);
        [congruence|].
      destruct H as (? & ? & ? & _ & _ & _ & [p Hp']). discriminate.
  - split.
    + intros _. exists m, bs, priv, stk. repeat split; try assumption. left.
      exact Hprov.
    + intros _. simpl. eauto.
Qed.

End RawFacts.

(** C7 fails as stated: an event without a provider whose meta has no
    [stack] is not rejected with ProviderNotFound; [path.join] throws a
    TypeError before the provider check, and no promise exists. *)
Lemma no_provider_missing_stack_cex :
  let ev := BenchRaw.event None None (Some ["G1"]) in
  (exists m, raw_meta ev = Some m /\ raw_provider m = None) /\
  (exists msg,
     syncGranule_raw BenchRaw.selector ev (Bench.start ∅)
     = (Bench.start ∅, Threw (Js.TypeError msg))) /\
  (forall o,
     (syncGranule_raw BenchRaw.selector ev (Bench.start ∅)).2 <> Promise o).
Proof.
  intros ev. split; [eexists; split; reflexivity|].
  split; [eexists; reflexivity | discriminate].
Qed.

(** C7 amended, on a run: no provider in the event, nothing happens but
    the rejection, although the lock is held and the payload is missing. *)
Lemma no_provider_rejects_when_well_formed_witness :
  let ev := BenchRaw.event (Some "my-stack") None None in
  syncGranule_raw BenchRaw.selector ev (Bench.start Bench.held) =
  (Bench.start Bench.held,
   Promise (Rejected (Js.ProviderNotFound "Provider info not provided"))).
Proof.
  intros ev.
  apply (no_provider_rejects_when_well_formed BenchRaw.selector ev
           (BenchRaw.meta_with (Some "my-stack") None)
           {| raw_private := Some (private Bench.the_buckets);
              raw_other_buckets := [] |}
           (private Bench.the_buckets) "my-stack" (Bench.start Bench.held));
    reflexivity.
Defined.

(** The events of the bench that the handler answers and those it
    leaves by an exception. *)
Example handler_raw_answers :
  (handler_raw BenchRaw.selector Bench2.now
     (BenchRaw.event (Some "my-stack") (Some (Bench.the_provider "s3")) (Some ["G1"]))
     (Bench.start ∅)).2
  = RawCalled (RawCbResult
      {| rt_payload := {| op_granules := [Bench.granule "G1"]; op_process := None |};
         rt_meta := Some (BenchRaw.meta_with (Some "my-stack")
                            (Some (Bench.the_provider "s3")));
         rt_duration := 41000; rt_end_time := 41000 |}).
Proof. reflexivity. Qed.

Example handler_raw_throws :
  (exists msg,
     (handler_raw BenchRaw.selector Bench2.now
        (BenchRaw.event (Some "my-stack") (Some (Bench.the_provider "s3")) None)
        (Bench.start ∅)).2
     = RawHandlerThrew (Js.TypeError msg)) /\
  (handler_raw BenchRaw.selector Bench2.now
     (BenchRaw.event (Some "my-stack") (Some (Bench.the_provider "abstract")) (Some ["G1"]))
     (Bench.start ∅)).2
  = RawHandlerThrew (Js.TypeError "Can not construct abstract class.") /\
  (exists msg,
     (handler_raw BenchRaw.selector Bench2.now
        (BenchRaw.event None (Some (Bench.the_provider "s3")) (Some ["G1"]))
        (Bench.start ∅)).2
     = RawHandlerThrew (Js.TypeError msg)).
Proof. repeat split; eexists; reflexivity. Qed.

(** ** Beyond the claims: the task's output and its handler *)

Section MoreEngineFacts.

Context {W : Type}.
Variable selector : string -> Js.Error + IngestClass W.
Variable now : W -> Z.
Implicit Types (ing : Ingest W) (st : St W) (gs rs : list Granule).

(** X1: When every granule of a non-empty list ingests, [syncGranule]
    resolves with the ingest results in input order, one per granule,
    and with the collection's [process]. *)
Theorem syncGranule_resolves event prov cls st rs w' :
  provider (meta event) = Some prov ->
  selector (protocol prov) = inr cls ->
  end_returns (cls (ctor_args event prov)) ->
  granules (payload event) <> [] ->
  ingested (cls (ctor_args event prov))
    (bucket_name (private (buckets (meta event))))
    (world st) (granules (payload event)) rs w' ->
  (syncGranule selector event st).2
  = Promise (Resolved (output_of (collection (meta event)) rs)) /\
  length rs = length (granules (payload event)).
Proof.
  intros Hp Hs Hsafe Hne Hch. split; [|eapply ingested_length; eassumption].
  rewrite (syncGranule_eq selector event prov cls st Hp Hs). cbv zeta.
  rewrite (download_resolves _ _ prov _ (record (ActNew (ctor_args event prov)) st)
             rs w' Hne Hch).
  destruct (call_end_returns (cls (ctor_args event prov))
              {| world := w';
                 trace := trace (record (ActNew (ctor_args event prov)) st) ++
                          map (fun g => ActIngest g
                                 (bucket_name (private (buckets (meta event)))))
                            (granules (payload event)) |} Hsafe)
    as (st3 & -> & _).
  reflexivity.
Qed.

(** X2: an event with no granule is rejected with a TypeError although
    nothing failed, when the teardown returns: the closing log line of
    [download] reads the id of the first granule. The adapter is
    constructed and torn down, and no ingest is tried. *)
Theorem syncGranule_empty_rejected event prov cls st :
  provider (meta event) = Some prov ->
  selector (protocol prov) = inr cls ->
  end_returns (cls (ctor_args event prov)) ->
  granules (payload event) = [] ->
  (exists msg,
     (syncGranule selector event st).2
     = Promise (Rejected (Js.TypeError msg))) /\
  trace (syncGranule selector event st).1
  = trace st ++ ActNew (ctor_args event prov)
      :: replicate (ends_expected (cls (ctor_args event prov))) ActEnd.
Proof.
  intros Hp Hs Hsafe Hnil.
  rewrite (syncGranule_eq selector event prov cls st Hp Hs). cbv zeta.
  rewrite Hnil, download_empty.
  destruct (call_end_returns (cls (ctor_args event prov))
              (record (ActNew (ctor_args event prov)) st) Hsafe)
    as (st3 & -> & Htr).
  simpl. split; [eexists; reflexivity|].
  rewrite Htr. simpl. rewrite <- app_assoc. reflexivity.
Qed.

(** X3: Mapping an error twice is mapping it once: the errors the handler
    makes are neither refusals nor timeouts themselves. *)
Theorem errorToThrow_idempotent e :
  errorToThrow (errorToThrow e) = errorToThrow e.
Proof.
  unfold errorToThrow at 2 3.
  destruct (Js.includes (Js.toString e) "ECONNREFUSED") eqn:Hinc; [reflexivity|].
  destruct (Js.status_is_timeout e) eqn:Hto; [reflexivity|].
  unfold errorToThrow. rewrite Hinc, Hto. reflexivity.
Qed.

(** X5: When every granule ingests, the handler calls back with the event
    extended: the payload holds the ingest results in input order, one
    per granule, the meta is the event's meta with the end time read
    off the clock and the duration counted from the handler's start. *)
Theorem handler_success event prov cls st rs w' :
  provider (meta event) = Some prov ->
  selector (protocol prov) = inr cls ->
  end_returns (cls (ctor_args event prov)) ->
  granules (payload event) <> [] ->
  ingested (cls (ctor_args event prov))
    (bucket_name (private (buckets (meta event))))
    (world st) (granules (payload event)) rs w' ->
  let st' := (handler selector now event st).1 in
  (handler selector now event st).2
  = Called (CbResult
      {| t_payload :=
           {| op_granules := rs;
              op_process := out_process (output_of (collection (meta event)) rs) |};
         t_meta :=
           {| base_meta := meta event;
              sync_granule_duration := Some (now (world st') - now (world st))%Z;
              sync_granule_end_time := Some (now (world st')) |} |}) /\
  length rs = length (granules (payload event)).
Proof.
  intros Hp Hs Hsafe Hne Hch.
  split; [|eapply ingested_length; eassumption].
  unfold handler.
  rewrite (syncGranule_eq selector event prov cls st Hp Hs). cbv zeta.
  rewrite (download_resolves _ _ prov _ (record (ActNew (ctor_args event prov)) st)
             rs w' Hne Hch).
  match goal with |- context [call_end ?i ?s] =>
    destruct (call_end_returns i s Hsafe) as (st3 & -> & _) end.
  reflexivity.
Qed.

(** X6: When [download] rejects, the handler calls back with the mapped
    error and with nothing else. *)
Theorem handler_failure event prov cls st st2 e :
  provider (meta event) = Some prov ->
  selector (protocol prov) = inr cls ->
  end_returns (cls (ctor_args event prov)) ->
  download (cls (ctor_args event prov))
    (bucket_name (private (buckets (meta event)))) prov
    (granules (payload event)) (record (ActNew (ctor_args event prov)) st)
  = (st2, Rejected e) ->
  (handler selector now event st).2 = Called (CbError (errorToThrow e)).
Proof.
  intros Hp Hs Hsafe Hd. unfold handler.
  rewrite (syncGranule_eq selector event prov cls st Hp Hs). cbv zeta. rewrite Hd.
  destruct (call_end_returns _ st2 Hsafe) as (st3 & -> & _). reflexivity.
Qed.

End MoreEngineFacts.

(** ** Beyond the claims: the cleanup task *)

Module CleanupFacts.
Import Cleanup.



Section TaskFacts.

Context {W : Type}.
Variable deleteS3Object : option string -> string -> W -> W.




End TaskFacts.

End CleanupFacts.

(** X10: The sync handler and the cleanup task in a row: the message of a
    successful sync passes the cleanup exactly when the sync took at
    most two minutes by the handler's clock. *)
Theorem sync_then_cleanup {W W' : Type}
    (selector : string -> Js.Error + IngestClass W) (now : W -> Z)
    (deleteS3Object : option string -> string -> W' -> W')
    (event : Event) (st : St W) (ev : TimedEvent) (w : W') :
  (handler selector now event st).2 = Called (CbResult ev) ->
  let st' := (handler selector now event st).1 in
  (Cleanup.handler deleteS3Object ev w).2 = [Cleanup.Success ev] <->
  (now (world st') - now (world st) <= 120000)%Z.
Proof.
  unfold handler.
  destruct (syncGranule selector event st) as [st1 [[data|err]|e]];
    simpl; intros [= <-].
  unfold Cleanup.handler.
  destruct (Cleanup.cleanFiles deleteS3Object _ w) as [w' o]. simpl.
  change (2 * 60 * 1000)%Z with 120000%Z.
  destruct (Z.gtb_spec (now (world st1) - now (world st)) 120000) as [Hgt|Hle];
    simpl; split; try discriminate; try lia; reflexivity.
Qed.

(** ** Beyond the claims: retrying until a condition holds *)

Module WaitFacts.
Import Wait.

Section LoopFacts.

Context {W V : Type}.
Variable now : W -> Z.
Variable sleep : Z -> W -> W.
Implicit Types (fn : Fn W V) (condition : Condition W V) (w : W).

(** A run that settles made at least one call of [fn] and at most one
    per round. *)
Lemma loop_tries fuel : forall fn condition interval timeoutAt tries w w' o n,
  loop now sleep fuel fn condition interval timeoutAt tries w = Some (w', o, n) ->
  tries < n <= tries + fuel.
Proof.
  induction fuel as [|fuel IH]; intros fn condition interval timeoutAt tries w w' o n H;
    simpl in H; [discriminate|].
  destruct (fn w) as [w1 [v|e]]; [|inversion H; subst; lia].
  destruct (condition v w1) as [w2 [[[|]|]|e]]; try (inversion H; subst; lia).
  destruct (now w2 + interval >=? timeoutAt)%Z; [inversion H; subst; lia|].
  apply IH in H. lia.
Qed.

(** More rounds than needed change nothing. *)
Lemma loop_more_fuel fuel : forall fn condition interval timeoutAt tries w r k,
  loop now sleep fuel fn condition interval timeoutAt tries w = Some r ->
  loop now sleep (fuel + k) fn condition interval timeoutAt tries w = Some r.
Proof.
  induction fuel as [|fuel IH]; intros fn condition interval timeoutAt tries w r k H;
    simpl in *; [discriminate|].
  destruct (fn w) as [w1 [v|e]]; [|exact H].
  destruct (condition v w1) as [w2 [[[|]|]|e]]; try exact H.
  destruct (now w2 + interval >=? timeoutAt)%Z; [exact H|].
  apply IH. exact H.
Qed.

(** The value a run resolves with is the value of its last call of
    [fn], and [condition] said yes to it. *)
Lemma loop_sound fuel : forall fn condition interval timeoutAt tries w w' v n,
  loop now sleep fuel fn condition interval timeoutAt tries w
  = Some (w', Resolved v, n) ->
  exists w0 w1,
    fn w0 = (w1, Resolved v) /\
    condition v w1 = (w', Resolved (IsBoolean true)).
Proof.
  induction fuel as [|fuel IH]; intros fn condition interval timeoutAt tries w w' v n H;
    simpl in H; [discriminate|].
  destruct (fn w) as [w1 [v1|e]] eqn:Hfn; [|discriminate].
  destruct (condition v1 w1) as [w2 [[[|]|]|e]] eqn:Hc; try discriminate.
  - inversion H; subst. eauto.
  - destruct (now w2 + interval >=? timeoutAt)%Z; [discriminate|].
    eapply IH. exact H.
Qed.

(** A run that ends in the loop's own TimeoutError ends with less than
    an interval left before the deadline. *)
Lemma loop_timeout_late fuel : forall fn condition interval timeoutAt tries w w' n,
  (forall v w, (condition v w).2 = Resolved (IsBoolean false)) ->
  (forall w, exists v, (fn w).2 = Resolved v) ->
  loop now sleep fuel fn condition interval timeoutAt tries w
  = Some (w', Rejected TimeoutError, n) ->
  (timeoutAt <= now w' + interval)%Z.
Proof.
  induction fuel as [|fuel IH]; intros fn condition interval timeoutAt tries w w' n Hc Hf H;
    simpl in H; [discriminate|].
  destruct (Hf w) as [v Hv]. destruct (fn w) as [w1 o1]. simpl in Hv. subst o1.
  pose proof (Hc v w1) as Hcv. destruct (condition v w1) as [w2 o2].
  simpl in Hcv. subst o2.
  destruct (now w2 + interval >=? timeoutAt)%Z eqn:E.
  - inversion H; subst. apply Z.geb_le in E. lia.
  - eapply IH; eassumption.
Qed.

(** When [condition] never holds and [fn] never fails, a run can only
    end in the loop's TimeoutError. *)
Lemma loop_never_accepts fuel : forall fn condition interval timeoutAt tries w w' o n,
  (forall v w, (condition v w).2 = Resolved (IsBoolean false)) ->
  (forall w, exists v, (fn w).2 = Resolved v) ->
  loop now sleep fuel fn condition interval timeoutAt tries w = Some (w', o, n) ->
  o = Rejected TimeoutError.
Proof.
  induction fuel as [|fuel IH]; intros fn condition interval timeoutAt tries w w' o n Hc Hf H;
    simpl in H; [discriminate|].
  destruct (Hf w) as [v Hv]. destruct (fn w) as [w1 o1]. simpl in Hv. subst o1.
  pose proof (Hc v w1) as Hcv. destruct (condition v w1) as [w2 o2].
  simpl in Hcv. subst o2.
  destruct (now w2 + interval >=? timeoutAt)%Z; [congruence|].
  eapply IH; eassumption.
Qed.

Section Deadline.

Variables (fn : Fn W V) (condition : Condition W V).
Variables (interval timeout t0 : Z).
Hypothesis Hclock : clock_monotone now sleep fn condition.
Hypothesis Hinterval : (0 < interval)%Z.
Hypothesis Htimeout : (0 < timeout)%Z.

(** After [tries] rounds the clock has advanced by as many intervals,
    and only rounds that leave more than an interval continue: the loop
    settles within the rounds that fit before the deadline. *)
Lemma loop_settles fuel : forall tries w,
  (Z.of_nat tries <= (timeout - 1) / interval)%Z ->
  (t0 + Z.of_nat tries * interval <= now w)%Z ->
  ((timeout - 1) / interval - Z.of_nat tries < Z.of_nat fuel)%Z ->
  exists r, loop now sleep fuel fn condition interval (t0 + timeout) tries w = Some r.
Proof.
  destruct Hclock as (Hfn & Hcond & Hsleep).
  induction fuel as [|fuel IH]; intros tries w Hle Hnow Hfuel; [simpl in Hfuel; lia|].
  simpl.
  pose proof (Hfn w) as H1. destruct (fn w) as [w1 [v|e]]; [|eauto].
  pose proof (Hcond v w1) as H2. simpl in H1.
  destruct (condition v w1) as [w2 [[[|]|]|e]]; eauto. simpl in H2.
  destruct (now w2 + interval >=? t0 + timeout)%Z eqn:E; [eauto|].
  rewrite Z.geb_leb in E. apply Z.leb_gt in E.
  assert (Hnext : (Z.of_nat (S tries) <= (timeout - 1) / interval)%Z).
  { apply Z.div_le_lower_bound; [lia|]. nia. }
  apply IH.
  - exact Hnext.
  - pose proof (Hsleep interval w2). nia.
  - lia.
Qed.

End Deadline.

(** X11: Invalid arguments are refused with a TypeError before [fn] is ever
    called, however much the loop could run. *)
Theorem invalid_arguments_rejected fuel (fn : option (Fn W V))
    (condition : option (Condition W V)) interval timeout w :
  fn = None \/ condition = None \/
  positive_integer (or_default 1000 interval) = None \/
  positive_integer (or_default 5000 timeout) = None ->
  exists msg,
    waitForConditionalValue now sleep fuel fn condition interval timeout w
    = Some (w, Rejected (Js.TypeError msg), 0).
Proof.
  intros H. unfold waitForConditionalValue.
  destruct fn as [f|]; [|eauto].
  destruct condition as [c|]; [|eauto].
  destruct (positive_integer (or_default 1000 interval)) as [i|]; [|eauto].
  destruct (positive_integer (or_default 5000 timeout)) as [t|]; [|eauto].
  destruct H as [H|[H|[H|H]]]; discriminate.
Qed.

Lemma positive_integer_pos o z : positive_integer o = Some z -> (0 < z)%Z.
Proof.
  destruct o as [|i|]; simpl; try discriminate.
  destruct (Z.leb_spec i 0); [discriminate|]. intros [= <-]. lia.
Qed.

(** X12: The call resolves only with a value that [fn] returned and that
    [condition] accepted, right after the check: the world it leaves is
    the one [condition] left. *)
Theorem resolves_with_accepted_value fuel fn condition interval timeout w w' v n :
  waitForConditionalValue now sleep fuel (Some fn) (Some condition)
    interval timeout w = Some (w', Resolved v, n) ->
  (exists w0 w1,
     fn w0 = (w1, Resolved v) /\
     condition v w1 = (w', Resolved (IsBoolean true))) /\
  1 <= n.
Proof.
  unfold waitForConditionalValue.
  destruct (positive_integer (or_default 1000 interval)) as [i|]; [|discriminate].
  destruct (positive_integer (or_default 5000 timeout)) as [t|]; [|discriminate].
  intros H. split; [eapply loop_sound; exact H|].
  apply loop_tries in H. lia.
Qed.

(** X13: With a clock that does not run backwards, the call always settles,
    and [fn] is called at most once per interval that fits before the
    deadline: at most [(timeout - 1) / interval + 1] times. More fuel
    gives the same result. *)
Theorem settles_within_deadline fn condition interval timeout i t w :
  clock_monotone now sleep fn condition ->
  positive_integer (or_default 1000 interval) = Some i ->
  positive_integer (or_default 5000 timeout) = Some t ->
  exists w' o n,
    (forall k,
       waitForConditionalValue now sleep (rounds i t + k) (Some fn)
         (Some condition) interval timeout w = Some (w', o, n)) /\
    1 <= n <= rounds i t.
Proof.
  intros Hclock Hi Ht.
  pose proof (positive_integer_pos _ _ Hi) as Hipos.
  pose proof (positive_integer_pos _ _ Ht) as Htpos.
  assert (Hq : (0 <= (t - 1) / i)%Z) by (apply Z.div_pos; lia).
  destruct (loop_settles fn condition i t (now w) Hclock Hipos Htpos (rounds i t) 0 w)
    as [[[w' o] n] Hr].
  - simpl. exact Hq.
  - simpl. lia.
  - unfold rounds. lia.
  - exists w', o, n. split.
    + intros k. unfold waitForConditionalValue. rewrite Hi, Ht.
      apply loop_more_fuel. exact Hr.
    + apply loop_tries in Hr. lia.
Qed.

(** X14: When [condition] never holds, the call ends in TimeoutError, and
    not before less than one interval is left of the timeout. *)
Theorem times_out fn condition interval timeout i t w :
  clock_monotone now sleep fn condition ->
  positive_integer (or_default 1000 interval) = Some i ->
  positive_integer (or_default 5000 timeout) = Some t ->
  (forall v w, (condition v w).2 = Resolved (IsBoolean false)) ->
  (forall w, exists v, (fn w).2 = Resolved v) ->
  exists w' n,
    waitForConditionalValue now sleep (rounds i t) (Some fn) (Some condition)
      interval timeout w = Some (w', Rejected TimeoutError, n) /\
    (now w + t <= now w' + i)%Z.
Proof.
  intros Hclock Hi Ht Hc Hf.
  pose proof (positive_integer_pos _ _ Hi) as Hipos.
  pose proof (positive_integer_pos _ _ Ht) as Htpos.
  assert (Hq : (0 <= (t - 1) / i)%Z) by (apply Z.div_pos; lia).
  unfold waitForConditionalValue. rewrite Hi, Ht.
  destruct (loop_settles fn condition i t (now w) Hclock Hipos Htpos (rounds i t) 0 w)
    as [[[w' o] n] Hr]; [simpl; exact Hq | simpl; lia | unfold rounds; lia |].
  assert (Ho : o = Rejected TimeoutError)
    by (eapply loop_never_accepts; eassumption).
  subst o. exists w', n. split; [exact Hr|].
  eapply loop_timeout_late; eassumption.
Qed.

(** X15: A timeout that is no longer than the interval leaves room for one
    try only: [fn] is called exactly once. *)
Theorem single_try_when_timeout_short fuel fn condition interval timeout i t w r :
  clock_monotone now sleep fn condition ->
  positive_integer (or_default 1000 interval) = Some i ->
  positive_integer (or_default 5000 timeout) = Some t ->
  (t <= i)%Z ->
  waitForConditionalValue now sleep fuel (Some fn) (Some condition)
    interval timeout w = Some r ->
  r.2 = 1.
Proof.
  intros (Hfn & Hcond & _) Hi Ht Hle. unfold waitForConditionalValue.
  rewrite Hi, Ht. destruct fuel as [|fuel]; [discriminate|]. simpl.
  pose proof (Hfn w) as H1. destruct (fn w) as [w1 [v|e]]; [|intros [= <-]; reflexivity].
  pose proof (Hcond v w1) as H2. simpl in H1.
  destruct (condition v w1) as [w2 [[[|]|]|e]]; try (intros [= <-]; reflexivity).
  simpl in H2.
  destruct (now w2 + i >=? now w + t)%Z eqn:E; [intros [= <-]; reflexivity|].
  rewrite Z.geb_leb in E. apply Z.leb_gt in E. lia.
Qed.

End LoopFacts.

End WaitFacts.

(** ** Beyond the claims: polling an async operation *)

Module AsyncOpFacts.
Import AsyncOp.

Section PollFacts.

Context {W : Type}.
Variable getItem : string -> string -> W -> W * Outcome (option Item).
Variable sleep : Z -> W -> W.

Lemma poll_reads retries : forall TableName id status reads w w' o k,
  poll getItem sleep retries TableName id status reads w = (w', o, k) ->
  reads < k <= reads + retries + 1.
Proof.
  induction retries as [|n IH]; intros TableName id status reads w w' o k H;
    simpl in H;
    destruct (getItem TableName id w) as [w1 [[item|]|e]];
    try (inversion H; subst; lia);
    destruct (String.eqb (item_status item) status);
    try (inversion H; subst; lia).
  apply IH in H. lia.
Qed.

Lemma poll_resolved retries : forall TableName id status reads w w' item k,
  poll getItem sleep retries TableName id status reads w = (w', Resolved item, k) ->
  (exists w0, getItem TableName id w0 = (w', Resolved (Some item))) /\
  (item_status item = status \/ k = reads + retries + 1).
Proof.
  induction retries as [|n IH]; intros TableName id status reads w w' item k H;
    simpl in H;
    destruct (getItem TableName id w) as [w1 [[it|]|e]] eqn:Hg; try discriminate;
    destruct (String.eqb (item_status it) status) eqn:Hs.
  - inversion H; subst. apply String.eqb_eq in Hs. eauto.
  - inversion H; subst. split; [eauto | right; lia].
  - inversion H; subst. apply String.eqb_eq in Hs. eauto.
  - apply IH in H as [Hlast [Hst|Hk]]; split; auto. right. lia.
Qed.

(** X16: The table is read at least once and at most [retries + 1] times;
    with [retries] zero or negative it is read exactly once. *)
Theorem reads_bounded TableName id status retries w :
  let k := (waitForAsyncOperationStatus getItem sleep TableName id status retries w).2 in
  1 <= k <= Z.to_nat (default 5%Z retries) + 1 /\
  ((default 5%Z retries <= 0)%Z -> k = 1).
Proof.
  unfold waitForAsyncOperationStatus.
  destruct (poll getItem sleep (Z.to_nat (default 5%Z retries)) TableName id status 0 w)
    as [[w' o] k] eqn:H.
  apply poll_reads in H. simpl. split; [lia|]. intros Hle.
  rewrite Z2Nat.nonpos in H by exact Hle. lia.
Qed.

(** X17: The item handed back is the one the last read returned, no sleep
    after it; its status is the awaited one, or else the retries are
    used up: exhaustion is not an error. *)
Theorem resolved_item_is_last_read TableName id status retries w w' item k :
  waitForAsyncOperationStatus getItem sleep TableName id status retries w
  = (w', Resolved item, k) ->
  (exists w0, getItem TableName id w0 = (w', Resolved (Some item))) /\
  (item_status item = status \/ k = Z.to_nat (default 5%Z retries) + 1).
Proof.
  unfold waitForAsyncOperationStatus. intros H.
  apply poll_resolved in H. exact H.
Qed.

End PollFacts.

End AsyncOpFacts.

(** ** Beyond the claims: waiting for an execution *)

Module ExecutionFacts.
Import Execution.

Section PollFacts.

Context {W : Type}.
Variable now : W -> Z.
Variable sleep : Z -> W -> W.
Variable describeExecution :
  string -> W -> W * (Js.Error * option string + Described).
Variable getExecutionHistory : string -> W -> W * Outcome unit.


(** One round of the loop, written out. *)
Lemma polling_S fuel arn stopTime iteration w :
  polling now sleep describeExecution (S fuel) arn stopTime iteration w =
  match getExecutionStatus describeExecution arn w with
  | (w1, inr s) =>
      if in_progress s && (now (sleep sleepPeriodMs w1) <? stopTime)%Z then
        polling now sleep describeExecution fuel arn stopTime (iteration + 1)
          (sleep sleepPeriodMs w1)
      else Some (sleep sleepPeriodMs w1, Resolved s, (iteration + 1)%Z)
  | (w1, inl (err, code)) =>
      if negb (does_not_exist code) || (iteration + 1 >? maxIterationsToStart)%Z
      then Some (w1, Rejected err, (iteration + 1)%Z)
      else if (now (sleep sleepPeriodMs w1) <? stopTime)%Z then
        polling now sleep describeExecution fuel arn stopTime (iteration + 1)
          (sleep sleepPeriodMs w1)
      else Some (sleep sleepPeriodMs w1, Resolved "STARTING", (iteration + 1)%Z)
  end.
Proof.
  simpl. destruct (getExecutionStatus describeExecution arn w) as [w1 [[e code]|s]]; reflexivity.
Qed.



(** The loop ends with a status still in progress only past the
    deadline. *)
Lemma polling_in_progress fuel : forall arn stopTime iteration w w' s n,
  polling now sleep describeExecution fuel arn stopTime iteration w
  = Some (w', Resolved s, n) ->
  in_progress s = true -> (stopTime <= now w')%Z.
Proof.
  induction fuel as [|fuel IH]; intros arn stopTime iteration w w' s n H Hs;
    [discriminate|].
  rewrite polling_S in H.
  destruct (getExecutionStatus describeExecution arn w) as [w1 [[e code]|s1]].
  - destruct (negb (does_not_exist code) || (iteration + 1 >? maxIterationsToStart)%Z);
      [discriminate|].
    destruct (now (sleep sleepPeriodMs w1) <? stopTime)%Z eqn:E;
      [eapply IH; eassumption|].
    inversion H; subst. apply Z.ltb_ge in E. exact E.
  - destruct (in_progress s1 && (now (sleep sleepPeriodMs w1) <? stopTime)%Z) eqn:E;
      [eapply IH; eassumption|].
    inversion H; subst. rewrite Hs in E. simpl in E. apply Z.ltb_ge in E. exact E.
Qed.

(** The loop throws only the error of its last poll, and only when that
    error is not ExecutionDoesNotExist or the polls allowed for the
    start are used up. *)
Lemma polling_rejected fuel : forall arn stopTime iteration w w' e n,
  polling now sleep describeExecution fuel arn stopTime iteration w
  = Some (w', Rejected e, n) ->
  exists w0 code,
    getExecutionStatus describeExecution arn w0 = (w', inl (e, code)) /\
    (does_not_exist code = false \/ (maxIterationsToStart < n)%Z).
Proof.
  induction fuel as [|fuel IH]; intros arn stopTime iteration w w' e n H;
    [discriminate|].
  rewrite polling_S in H.
  destruct (getExecutionStatus describeExecution arn w) as [w1 [[e1 code]|s1]] eqn:Hg.
  - destruct (negb (does_not_exist code)) eqn:Hc; simpl in H.
    + inversion H; subst. exists w, code. split; [exact Hg|].
      left. apply negb_true_iff in Hc. exact Hc.
    + destruct (iteration + 1 >? maxIterationsToStart)%Z eqn:Hi.
      * inversion H; subst. exists w, code. split; [exact Hg|].
        right. apply Z.gtb_lt in Hi. exact Hi.
      * destruct (now (sleep sleepPeriodMs w1) <? stopTime)%Z;
          [eapply IH; exact H | discriminate].
  - destruct (in_progress s1 && (now (sleep sleepPeriodMs w1) <? stopTime)%Z);
      [eapply IH; exact H | discriminate].
Qed.

Section Deadline.

Variables (arn : string) (t0 T : Z).
Hypothesis Hclock : clock_monotone now sleep describeExecution getExecutionHistory.


End Deadline.


(** X19: A status of RUNNING or STARTING comes back only once the deadline
    has passed: the wait reports an unfinished execution by its status,
    not by an error. *)
Theorem in_progress_only_past_deadline fuel arn timeout w w' s n :
  clock_monotone now sleep describeExecution getExecutionHistory ->
  waitForCompletedExecution now sleep describeExecution getExecutionHistory
    fuel arn timeout w = Some (w', Resolved s, n) ->
  in_progress s = true ->
  (now w + default 600%Z timeout * 1000 <= now w')%Z.
Proof.
  intros (_ & Hh & _) H Hs. unfold waitForCompletedExecution in H.
  destruct (polling now sleep describeExecution fuel arn
              (now w + default 600%Z timeout * 1000) 0 w)
    as [[[w1 [s1|e]] n1]|] eqn:Hp; try discriminate.
  destruct (String.eqb s1 "RUNNING").
  - pose proof (Hh arn w1) as Hmono.
    destruct (getExecutionHistory arn w1) as [w2 [u|e]]; [|discriminate].
    inversion H; subst. simpl in Hmono.
    pose proof (polling_in_progress _ _ _ _ _ _ _ _ Hp Hs). lia.
  - inversion H; subst. eapply polling_in_progress; eassumption.
Qed.

(** X20: The wait fails only with the error of its last status request, when
    that error is not ExecutionDoesNotExist or when more than sixty
    polls have been made, or with the error of the history request. *)
Theorem rejection_causes fuel arn timeout w w' e n :
  waitForCompletedExecution now sleep describeExecution getExecutionHistory
    fuel arn timeout w = Some (w', Rejected e, n) ->
  (exists w0 code,
     getExecutionStatus describeExecution arn w0 = (w', inl (e, code)) /\
     (does_not_exist code = false \/ (60 < n)%Z)) \/
  (exists w1, getExecutionHistory arn w1 = (w', Rejected e)).
Proof.
  intros H. unfold waitForCompletedExecution in H.
  destruct (polling now sleep describeExecution fuel arn
              (now w + default 600%Z timeout * 1000) 0 w)
    as [[[w1 [s1|e1]] n1]|] eqn:Hp; try discriminate.
  - destruct (String.eqb s1 "RUNNING"); [|discriminate].
    destruct (getExecutionHistory arn w1) as [w2 [u|e2]] eqn:Hh; [discriminate|].
    inversion H; subst. right. eauto.
  - inversion H; subst. left.
    apply polling_rejected in Hp. exact Hp.
Qed.

End PollFacts.

End ExecutionFacts.

(** ** Runs of the properties beyond the claims *)


Lemma bench_end_returns ev :
  end_returns (Bench.s3_adapter (ctor_args ev Bench2.s3)).
Proof. intros f w [= <-]. reflexivity. Defined.

Lemma bench_two_ingested :
  ingested (Bench.s3_adapter (ctor_args Bench2.two_granules Bench2.s3)) "stack-private"
    (world (Bench.start ∅)) (map Bench.granule ["G1"; "G2"])
    (map Bench.granule ["G1"; "G2"])
    (Bench.stage "G2" (Bench.stage "G1" (world (Bench.start ∅)))).
Proof.
  econstructor; [reflexivity|]. econstructor; [reflexivity|]. constructor.
Defined.

Lemma syncGranule_resolves_witness :
  (syncGranule Bench.selector Bench2.two_granules (Bench.start ∅)).2
  = Promise (Resolved {| out_granules := map Bench.granule ["G1"; "G2"];
                         out_process := Some "modis" |}) /\
  length (map Bench.granule ["G1"; "G2"]) = 2.
Proof.
  exact (syncGranule_resolves Bench.selector Bench2.two_granules Bench2.s3
           Bench.s3_adapter (Bench.start ∅) _ _ eq_refl eq_refl
           (bench_end_returns _) ltac:(discriminate) bench_two_ingested).
Defined.

Lemma syncGranule_empty_rejected_witness :
  let ev := Bench.event (Some Bench2.s3) None [] in
  (exists msg,
     (syncGranule Bench.selector ev (Bench.start ∅)).2
     = Promise (Rejected (Js.TypeError msg))) /\
  trace (syncGranule Bench.selector ev (Bench.start ∅)).1
  = [ActNew (ctor_args ev Bench2.s3); ActEnd].
Proof.
  intros ev.
  exact (syncGranule_empty_rejected Bench.selector ev Bench2.s3 Bench.s3_adapter
           (Bench.start ∅) eq_refl eq_refl (bench_end_returns _) eq_refl).
Defined.

Lemma handler_success_witness :
  (handler Bench.selector Bench2.now Bench2.two_granules (Bench.start ∅)).2
  = Called (CbResult Bench2.the_message) /\
  length (map Bench.granule ["G1"; "G2"]) = 2.
Proof.
  exact (handler_success Bench.selector Bench2.now Bench2.two_granules Bench2.s3
           Bench.s3_adapter (Bench.start ∅) _ _ eq_refl eq_refl
           (bench_end_returns _) ltac:(discriminate) bench_two_ingested).
Defined.

Lemma handler_failure_witness :
  let ev := Bench.event (Some Bench2.s3) None ["G1"; "MISSING"; "G3"] in
  (handler Bench.selector Bench2.now ev (Bench.start ∅)).2
  = Called (CbError Bench.not_found).
Proof.
  intros ev.
  exact (handler_failure Bench.selector Bench2.now ev Bench2.s3 Bench.s3_adapter
           (Bench.start ∅) _ Bench.not_found eq_refl eq_refl
           (bench_end_returns _) eq_refl).
Defined.

Lemma sync_then_cleanup_witness :
  (Cleanup.handler Bench2.deleteS3Object Bench2.the_message []).2
  = [Cleanup.Success Bench2.the_message] <->
  (81000 <= 120000)%Z.
Proof.
  exact (sync_then_cleanup Bench.selector Bench2.now Bench2.deleteS3Object
           Bench2.two_granules (Bench.start ∅) Bench2.the_message [] eq_refl).
Defined.




Lemma counter_clock_monotone condition :
  (forall v w, Bench2.clock w <= Bench2.clock (condition v w).1)%Z ->
  Wait.clock_monotone Bench2.clock Bench2.tick Bench2.incr condition.
Proof.
  intros Hc. repeat split.
  - intros w. simpl. lia.
  - exact Hc.
  - intros ms w. simpl. lia.
Defined.

Lemma invalid_arguments_rejected_witness :
  exists msg,
    Wait.waitForConditionalValue Bench2.clock Bench2.tick 10 (Some Bench2.incr)
      (Some (Bench2.at_least 5)) (Wait.Integer 0) Wait.Undefined Bench2.zero
    = Some (Bench2.zero, Rejected (Js.TypeError msg), 0).
Proof.
  apply (WaitFacts.invalid_arguments_rejected Bench2.clock Bench2.tick 10
           (Some Bench2.incr) (Some (Bench2.at_least 5)) (Wait.Integer 0)
           Wait.Undefined Bench2.zero).
  right. right. left. reflexivity.
Defined.

(** The example of the function's documentation: the fifth value is the
    first that is at least five. *)
Lemma resolves_with_accepted_value_witness :
  Wait.waitForConditionalValue Bench2.clock Bench2.tick 25 (Some Bench2.incr)
    (Some (Bench2.at_least 5)) (Wait.Integer 100) (Wait.Integer 2000) Bench2.zero
  = Some ({| Bench2.clock := 400; Bench2.x := 5 |}, Resolved 5%Z, 5) /\
  ((exists w0 w1,
      Bench2.incr w0 = (w1, Resolved 5%Z) /\
      Bench2.at_least 5 5%Z w1
      = ({| Bench2.clock := 400; Bench2.x := 5 |}, Resolved (Wait.IsBoolean true))) /\
   1 <= 5).
Proof.
  split; [reflexivity|].
  apply (WaitFacts.resolves_with_accepted_value Bench2.clock Bench2.tick 25
           Bench2.incr (Bench2.at_least 5) (Wait.Integer 100) (Wait.Integer 2000)
           Bench2.zero).
  reflexivity.
Defined.

Lemma settles_within_deadline_witness :
  exists w' o n,
    (forall k,
       Wait.waitForConditionalValue Bench2.clock Bench2.tick
         (Wait.rounds 100 500 + k) (Some Bench2.incr) (Some Bench2.never)
         (Wait.Integer 100) (Wait.Integer 500) Bench2.zero = Some (w', o, n)) /\
    1 <= n <= Wait.rounds 100 500.
Proof.
  apply (WaitFacts.settles_within_deadline Bench2.clock Bench2.tick Bench2.incr
           Bench2.never (Wait.Integer 100) (Wait.Integer 500) 100 500 Bench2.zero);
    [|reflexivity|reflexivity].
  apply counter_clock_monotone. intros v w. simpl. lia.
Defined.

Lemma times_out_witness :
  exists w' n,
    Wait.waitForConditionalValue Bench2.clock Bench2.tick (Wait.rounds 100 500)
      (Some Bench2.incr) (Some Bench2.never) (Wait.Integer 100)
      (Wait.Integer 500) Bench2.zero
    = Some (w', Rejected Wait.TimeoutError, n) /\
    (Bench2.clock Bench2.zero + 500 <= Bench2.clock w' + 100)%Z.
Proof.
  apply (WaitFacts.times_out Bench2.clock Bench2.tick Bench2.incr Bench2.never
           (Wait.Integer 100) (Wait.Integer 500) 100 500 Bench2.zero);
    [|reflexivity|reflexivity|reflexivity|].
  - apply counter_clock_monotone. intros v w. simpl. lia.
  - intros w. eexists. reflexivity.
Defined.

Lemma single_try_when_timeout_short_witness :
  Wait.waitForConditionalValue Bench2.clock Bench2.tick 3 (Some Bench2.incr)
    (Some Bench2.never) Wait.Undefined (Wait.Integer 500) Bench2.zero
  = Some ({| Bench2.clock := 0; Bench2.x := 1 |}, Rejected Wait.TimeoutError, 1) /\
  ({| Bench2.clock := 0; Bench2.x := 1 |},
   @Rejected Z Wait.TimeoutError, 1).2 = 1.
Proof.
  split; [reflexivity|].
  apply (WaitFacts.single_try_when_timeout_short Bench2.clock Bench2.tick 3
           Bench2.incr Bench2.never Wait.Undefined (Wait.Integer 500) 1000 500
           Bench2.zero);
    [|reflexivity|reflexivity|lia|reflexivity].
  apply counter_clock_monotone. intros v w. simpl. lia.
Defined.

(** Two retries against an operation that is still RUNNING at the third
    read: the RUNNING item comes back. *)
Lemma resolved_item_is_last_read_witness :
  let running := {| AsyncOp.item_id := "op-1"; AsyncOp.item_status := "RUNNING" |} in
  AsyncOp.waitForAsyncOperationStatus Bench2.getItem (fun _ w => w)
    "AsyncOperationsTable" "op-1" "SUCCEEDED" (Some 2%Z)
    ["RUNNING"; "RUNNING"; "RUNNING"; "SUCCEEDED"]
  = (["SUCCEEDED"], Resolved running, 3) /\
  ((exists w0, Bench2.getItem "AsyncOperationsTable" "op-1" w0
               = (["SUCCEEDED"], Resolved (Some running))) /\
   (AsyncOp.item_status running = "SUCCEEDED" \/ 3 = Z.to_nat 2 + 1)).
Proof.
  intros running. split; [reflexivity|].
  apply (AsyncOpFacts.resolved_item_is_last_read Bench2.getItem (fun _ w => w)
           "AsyncOperationsTable" "op-1" "SUCCEEDED" (Some 2%Z)
           ["RUNNING"; "RUNNING"; "RUNNING"; "SUCCEEDED"]).
  reflexivity.
Defined.

Lemma execution_clock_monotone describe :
  (forall arn w, Bench2.clock w <= Bench2.clock (describe arn w).1)%Z ->
  Execution.clock_monotone Bench2.clock Bench2.tick describe Bench2.history.
Proof.
  intros Hd. repeat split.
  - exact Hd.
  - intros arn w. simpl. lia.
  - intros ms w. simpl. lia.
Defined.



(** An execution that never leaves RUNNING, waited for with a timeout
    of twelve seconds: three polls, and RUNNING comes back at 15 s. *)
Lemma in_progress_only_past_deadline_witness :
  Execution.waitForCompletedExecution Bench2.clock Bench2.tick Bench2.stuck
    Bench2.history 10 "arn:exec" (Some 12%Z) Bench2.zero
  = Some ({| Bench2.clock := 15000; Bench2.x := 3 |}, Resolved "RUNNING", 3%Z) /\
  (Bench2.clock Bench2.zero + 12 * 1000 <= 15000)%Z.
Proof.
  split; [reflexivity|].
  apply (ExecutionFacts.in_progress_only_past_deadline Bench2.clock Bench2.tick
           Bench2.stuck Bench2.history 10 "arn:exec" (Some 12%Z) Bench2.zero
           {| Bench2.clock := 15000; Bench2.x := 3 |} "RUNNING" 3%Z);
    [|reflexivity|reflexivity].
  apply execution_clock_monotone. intros arn w. simpl. lia.
Defined.

Lemma rejection_causes_witness :
  Execution.waitForCompletedExecution Bench2.clock Bench2.tick Bench2.denied
    Bench2.history 10 "arn:exec" None Bench2.zero
  = Some ({| Bench2.clock := 0; Bench2.x := 1 |}, Rejected Bench2.access_denied, 1%Z) /\
  ((exists w0 code,
      Execution.getExecutionStatus Bench2.denied "arn:exec" w0
      = ({| Bench2.clock := 0; Bench2.x := 1 |}, inl (Bench2.access_denied, code)) /\
      (Execution.does_not_exist code = false \/ (60 < 1)%Z)) \/
   (exists w1, Bench2.history "arn:exec" w1
               = ({| Bench2.clock := 0; Bench2.x := 1 |}, Rejected Bench2.access_denied))).
Proof.
  split; [reflexivity|].
  apply (ExecutionFacts.rejection_causes Bench2.clock Bench2.tick Bench2.denied
           Bench2.history 10 "arn:exec" None Bench2.zero).
  reflexivity.
Defined.
